(** * AEGIS marketing suite: intent router, creative agent, support agent

    A shallow embedding of the four server files

      - [server/agents/Orchestrator.js]   (class [Orchestrator])
      - [server/agents/CreativeAgent.js]  (class [CreativeAgent])
      - [server/agents/SupportAgent.js]   (class [SupportAgent])
      - [server/routes/api.js]            (the POST /process-message route)

    together with the properties their specification states about them.

    Conventions of the embedding.

    - A JavaScript string is a Rocq [string], read as the UTF-8 bytes of
      the text.  Every keyword the router searches for is plain ASCII, and
      an ASCII needle occurs in a text exactly when its bytes occur in the
      UTF-8 form of the text, so [includes] below decides the same question
      as [String.prototype.includes].
    - A JavaScript value that can travel in a JSON document is a [json].
    - An [async] method is embedded as a computation in the monad [M]: it
      reads and writes the process state and either returns a value or
      throws.  A call of a method runs from its first statement to its
      [return] without another call in between; module [Overlap] splits
      [generateResponse] at its [await] to cover calls that overlap.
    - The language-model provider is outside the program.  Each call is
      given the provider's behaviour as a function from the request it
      receives to the outcome of the promise it hands back. *)

From Stdlib Require Import ZArith QArith Ascii String List Bool.
From stdpp Require Import base option list strings gmap.

Local Open Scope string_scope.
Local Open Scope list_scope.

Set Warnings "-register-all".

(** ** Strings *)

Module JsString.

(** [starts_with s p]: the text [s] begins with [p]. *)
Fixpoint starts_with (s p : string) {struct p} : bool :=
  match p with
  | EmptyString => true
  | String c p' =>
      match s with
      | EmptyString => false
      | String d s' => if Ascii.eqb c d then starts_with s' p' else false
      end
  end.

(** [String.prototype.includes]: [s.includes(searchString)], the search
    starting at position 0. *)
Fixpoint includes (s searchString : string) : bool :=
  starts_with s searchString ||
  match s with
  | EmptyString => false
  | String _ s' => includes s' searchString
  end.

(** What "the text [s] contains the substring [k]" means. *)
Definition contains (s k : string) : Prop :=
  exists before after : string, s = before +:+ k +:+ after.

(** ASCII lower-casing, used to speak about letter case. *)
Definition lower_ascii (c : ascii) : ascii :=
  let n := nat_of_ascii c in
  if (65 <=? n)%nat && (n <=? 90)%nat then ascii_of_nat (n + 32) else c.

Fixpoint lower (s : string) : string :=
  match s with
  | EmptyString => EmptyString
  | String c s' => String (lower_ascii c) (lower s')
  end.

End JsString.
Export JsString.


(** ** Exceptions and outcomes *)

(** The exceptions that occur in the program: the two the language raises
    on the paths taken here, and whatever the provider's client rejects its
    promise with (network, authentication, rate limit, ...). *)
Inductive Error : Type :=
| TypeError (message : string)
| SyntaxError (message : string)
| ProviderError (message : string).

(** How an evaluation, or an awaited promise, ends. *)
Inductive outcome (A : Type) : Type :=
| Returned (a : A)
| Thrown (e : Error).
Arguments Returned {A} a.
Arguments Thrown {A} e.

(** ** JSON values and [JSON.parse] *)

Module Json.

(** A value of the JSON data model.  A number carries the exact decimal
    value its literal denotes (JavaScript then rounds it to a double); an
    object keeps its members in insertion order, one entry per key
    (JavaScript lists integer-like keys first).  Nothing below depends on
    the rounding or on the order of members. *)
Inductive json : Type :=
| JNull
| JBool (b : bool)
| JNum (q : Q)
| JStr (s : string)
| JArr (items : list json)
| JObj (members : list (string * json)).

(** Defining a property on an object under construction: a key that is
    already there keeps its place and takes the new value. *)
Fixpoint obj_set (k : string) (v : json) (members : list (string * json))
  : list (string * json) :=
  match members with
  | [] => [(k, v)]
  | (k', v') :: rest =>
      if String.eqb k k' then (k, v) :: rest else (k', v') :: obj_set k v rest
  end.

(** Reading a property of a value: [None] stands for [undefined]. *)
Fixpoint assoc (k : string) (members : list (string * json)) : option json :=
  match members with
  | [] => None
  | (k', v) :: rest => if String.eqb k k' then Some v else assoc k rest
  end.

Definition get (v : json) (k : string) : option json :=
  match v with
  | JObj members => assoc k members
  | _ => None
  end.

Definition of_Z (z : Z) : json := JNum (inject_Z z).

(** *** Lexical helpers *)

Definition quote_char : ascii := "034"%char.
Definition backslash : ascii := "\"%char.

(** The text [s] between two double quotes. *)
Definition quoted (s : string) : string :=
  String quote_char (s +:+ String quote_char EmptyString).

Definition is_ws (c : ascii) : bool :=
  Ascii.eqb c " " || Ascii.eqb c "009" || Ascii.eqb c "010" || Ascii.eqb c "013".

Fixpoint skip_ws (s : string) : string :=
  match s with
  | String c s' => if is_ws c then skip_ws s' else s
  | EmptyString => s
  end.

Definition digit_of (c : ascii) : option Z :=
  let n := Z.of_N (N_of_ascii c) in
  if (48 <=? n)%Z && (n <=? 57)%Z then Some (n - 48)%Z else None.

Definition hex_of (c : ascii) : option N :=
  let n := N_of_ascii c in
  if (48 <=? n)%N && (n <=? 57)%N then Some (n - 48)%N
  else if (65 <=? n)%N && (n <=? 70)%N then Some (n - 55)%N
  else if (97 <=? n)%N && (n <=? 102)%N then Some (n - 87)%N
  else None.

Definition hex4 (a b c d : ascii) : option N :=
  match hex_of a, hex_of b, hex_of c, hex_of d with
  | Some x, Some y, Some z, Some w => Some (((x * 16 + y) * 16 + z) * 16 + w)%N
  | _, _, _, _ => None
  end.

(** Leading decimal digits of [s], most significant first, and what
    follows them. *)
Fixpoint take_digits (s : string) : list Z * string :=
  match s with
  | String c s' =>
      match digit_of c with
      | Some d => let '(ds, r) := take_digits s' in (d :: ds, r)
      | None => ([], s)
      end
  | EmptyString => ([], s)
  end.

Definition digits_value (ds : list Z) : Z :=
  fold_left (fun acc d => (acc * 10 + d)%Z) ds 0%Z.

(** The UTF-8 form of one code point (a lone surrogate is written with
    the same three-byte scheme). *)
Definition utf8 (cp : N) : string :=
  let byte (n : N) := ascii_of_N n in
  let cont (n : N) := byte (128 + N.land n 63)%N in
  if (cp <? 128)%N then String (byte cp) EmptyString
  else if (cp <? 2048)%N then
    String (byte (192 + N.shiftr cp 6)%N) (String (cont cp) EmptyString)
  else if (cp <? 65536)%N then
    String (byte (224 + N.shiftr cp 12)%N)
      (String (cont (N.shiftr cp 6)) (String (cont cp) EmptyString))
  else
    String (byte (240 + N.shiftr cp 18)%N)
      (String (cont (N.shiftr cp 12))
         (String (cont (N.shiftr cp 6)) (String (cont cp) EmptyString))).

Definition is_high_surrogate (u : N) : bool := (55296 <=? u)%N && (u <=? 56319)%N.
Definition is_low_surrogate (u : N) : bool := (56320 <=? u)%N && (u <=? 57343)%N.

(** The low half of a surrogate pair written as a second escape right at
    the start of [s]. *)
Definition low_surrogate_escape (s : string) : option N :=
  match s with
  | String b (String u (String h1 (String h2 (String h3 (String h4 _))))) =>
      if Ascii.eqb b backslash && Ascii.eqb u "u" then
        match hex4 h1 h2 h3 h4 with
        | Some lo => if is_low_surrogate lo then Some lo else None
        | None => None
        end
      else None
  | _ => None
  end.

Definition simple_escape (e : ascii) : option ascii :=
  if Ascii.eqb e quote_char then Some quote_char
  else if Ascii.eqb e backslash then Some backslash
  else if Ascii.eqb e "/" then Some "/"%char
  else if Ascii.eqb e "b" then Some "008"%char
  else if Ascii.eqb e "f" then Some "012"%char
  else if Ascii.eqb e "n" then Some "010"%char
  else if Ascii.eqb e "r" then Some "013"%char
  else if Ascii.eqb e "t" then Some "009"%char
  else None.

(** The characters of a string literal, read from just after its opening
    quote up to and including its closing quote.  [None]: the literal is
    not well formed. *)
Fixpoint parse_chars (s : string) : option (string * string) :=
  match s with
  | EmptyString => None
  | String c r =>
      if Ascii.eqb c quote_char then Some (EmptyString, r)
      else if Ascii.eqb c backslash then
        match r with
        | EmptyString => None
        | String e r1 =>
            if Ascii.eqb e "u" then
              match r1 with
              | String h1 (String h2 (String h3 (String h4 r5))) =>
                  match hex4 h1 h2 h3 h4 with
                  | None => None
                  | Some hi =>
                      match
                        (if is_high_surrogate hi then low_surrogate_escape r5 else None),
                        r5
                      with
                      | Some lo,
                        String _ (String _ (String _ (String _ (String _ (String _ r11))))) =>
                          match parse_chars r11 with
                          | Some (str, rest) =>
                              Some (utf8 (65536 + (hi - 55296) * 1024 + (lo - 56320))%N
                                      +:+ str, rest)
                          | None => None
                          end
                      | _, _ =>
                          match parse_chars r5 with
                          | Some (str, rest) => Some (utf8 hi +:+ str, rest)
                          | None => None
                          end
                      end
                  end
              | _ => None
              end
            else
              match simple_escape e with
              | None => None
              | Some d =>
                  match parse_chars r1 with
                  | Some (str, rest) => Some (String d str, rest)
                  | None => None
                  end
              end
        end
      else if (N_of_ascii c <? 32)%N then None
      else
        match parse_chars r with
        | Some (str, rest) => Some (String c str, rest)
        | None => None
        end
  end.

(** [strip p s]: what is left of [s] after its prefix [p]. *)
Fixpoint strip (p s : string) {struct p} : option string :=
  match p with
  | EmptyString => Some s
  | String c p' =>
      match s with
      | String d s' => if Ascii.eqb c d then strip p' s' else None
      | EmptyString => None
      end
  end.

Definition int_part (s : string) : option (list Z * string) :=
  match s with
  | String c r =>
      if Ascii.eqb c "0" then Some ([0%Z], r)
      else match take_digits s with
           | ([], _) => None
           | (ds, r') => Some (ds, r')
           end
  | EmptyString => None
  end.

Definition frac_part (s : string) : option (list Z * string) :=
  match s with
  | String c r =>
      if Ascii.eqb c "." then
        match take_digits r with
        | ([], _) => None
        | (ds, r') => Some (ds, r')
        end
      else Some ([], s)
  | EmptyString => Some ([], s)
  end.

Definition exp_part (s : string) : option (Z * string) :=
  match s with
  | String c r =>
      if Ascii.eqb c "e" || Ascii.eqb c "E" then
        let '(neg, r1) :=
          match r with
          | String sg r' =>
              if Ascii.eqb sg "-" then (true, r')
              else if Ascii.eqb sg "+" then (false, r')
              else (false, r)
          | EmptyString => (false, r)
          end in
        match take_digits r1 with
        | ([], _) => None
        | (ds, r2) => Some (if neg then (- digits_value ds)%Z else digits_value ds, r2)
        end
      else Some (0%Z, s)
  | EmptyString => Some (0%Z, s)
  end.

(** The value [m * 10^e]. *)
Definition decimal (m e : Z) : Q :=
  if (0 <=? e)%Z then inject_Z (m * 10 ^ e)
  else Qred (Qmake m (Z.to_pos (10 ^ (- e)))).

(** A number literal at the start of [s]. *)
Definition parse_number (s : string) : option (Q * string) :=
  let '(neg, s1) :=
    match s with
    | String c r => if Ascii.eqb c "-" then (true, r) else (false, s)
    | EmptyString => (false, s)
    end in
  match int_part s1 with
  | None => None
  | Some (ip, s2) =>
      match frac_part s2 with
      | None => None
      | Some (fp, s3) =>
          match exp_part s3 with
          | None => None
          | Some (e, s4) =>
              let m := digits_value (ip ++ fp) in
              Some (decimal (if neg then (- m)%Z else m)
                            (e - Z.of_nat (length fp)), s4)
          end
      end
  end.

(** *** The grammar of values *)

Inductive parse_result (A : Type) : Type :=
| Parsed (a : A) (rest : string)
| Syntax_error
| Out_of_fuel.
Arguments Parsed {A} a rest.
Arguments Syntax_error {A}.
Arguments Out_of_fuel {A}.

Fixpoint parse_value (fuel : nat) (s : string) : parse_result json :=
  match fuel with
  | O => Out_of_fuel
  | S fuel' =>
      match skip_ws s with
      | EmptyString => Syntax_error
      | String c r as t =>
          if Ascii.eqb c quote_char then
            match parse_chars r with
            | Some (str, r') => Parsed (JStr str) r'
            | None => Syntax_error
            end
          else if Ascii.eqb c "[" then
            match skip_ws r with
            | String c' r' =>
                if Ascii.eqb c' "]" then Parsed (JArr []) r'
                else parse_elements fuel' r []
            | EmptyString => Syntax_error
            end
          else if Ascii.eqb c "{" then
            match skip_ws r with
            | String c' r' =>
                if Ascii.eqb c' "}" then Parsed (JObj []) r'
                else parse_members fuel' r []
            | EmptyString => Syntax_error
            end
          else
            match strip "null" t, strip "true" t, strip "false" t with
            | Some r', _, _ => Parsed JNull r'
            | _, Some r', _ => Parsed (JBool true) r'
            | _, _, Some r' => Parsed (JBool false) r'
            | None, None, None =>
                match parse_number t with
                | Some (q, r') => Parsed (JNum q) r'
                | None => Syntax_error
                end
            end
      end
  end
with parse_elements (fuel : nat) (s : string) (acc : list json)
  : parse_result json :=
  match fuel with
  | O => Out_of_fuel
  | S fuel' =>
      match parse_value fuel' s with
      | Parsed v r =>
          match skip_ws r with
          | String c r' =>
              if Ascii.eqb c "," then parse_elements fuel' r' (acc ++ [v])
              else if Ascii.eqb c "]" then Parsed (JArr (acc ++ [v])) r'
              else Syntax_error
          | EmptyString => Syntax_error
          end
      | Syntax_error => Syntax_error
      | Out_of_fuel => Out_of_fuel
      end
  end
with parse_members (fuel : nat) (s : string) (acc : list (string * json))
  : parse_result json :=
  match fuel with
  | O => Out_of_fuel
  | S fuel' =>
      match skip_ws s with
      | String q r =>
          if Ascii.eqb q quote_char then
            match parse_chars r with
            | Some (k, r1) =>
                match skip_ws r1 with
                | String c r2 =>
                    if Ascii.eqb c ":" then
                      match parse_value fuel' r2 with
                      | Parsed v r3 =>
                          match skip_ws r3 with
                          | String d r4 =>
                              if Ascii.eqb d "," then
                                parse_members fuel' r4 (obj_set k v acc)
                              else if Ascii.eqb d "}" then
                                Parsed (JObj (obj_set k v acc)) r4
                              else Syntax_error
                          | EmptyString => Syntax_error
                          end
                      | Syntax_error => Syntax_error
                      | Out_of_fuel => Out_of_fuel
                      end
                    else Syntax_error
                | EmptyString => Syntax_error
                end
            | None => Syntax_error
            end
          else Syntax_error
      | EmptyString => Syntax_error
      end
  end.

Definition parse_fuel (s : string) : nat := 2 * String.length s + 2.

(** [JSON.parse(text)]: the value the whole text denotes, or a
    [SyntaxError]. *)
Definition JSON_parse (text : string) : outcome json :=
  match parse_value (parse_fuel text) text with
  | Parsed v rest =>
      match skip_ws rest with
      | EmptyString => Returned v
      | String _ _ => Thrown (SyntaxError "Unexpected non-whitespace character after JSON")
      end
  | Syntax_error | Out_of_fuel => Thrown (SyntaxError "Unexpected token in JSON")
  end.

End Json.
Export Json.

(** ** The provider's client *)

Module OpenAI.

Inductive Role : Type := system | user | assistant.

(** One message of a conversation, [{ role, content }]. *)
Record ConversationTurn : Type := { role : Role; content : string }.

(** The argument of [openai.chat.completions.create]. *)
Record ChatRequest : Type :=
  { messages : list ConversationTurn;
    model : string;
    max_tokens : option nat }.

Record Choice : Type := { message : ConversationTurn }.

(** What the promise of [chat.completions.create] resolves to. *)
Record Completion : Type := { choices : list Choice }.

(** The argument of [openai.images.generate]. *)
Record ImageRequest : Type :=
  { image_model : string;
    prompt : string;
    size : string;
    quality : string }.

Record Image : Type := { url : string }.

(** What the promise of [images.generate] resolves to; the field is
    called [data] in the client. *)
Record ImagesResponse : Type := { images_data : list Image }.

(** The provider as one call sees it: for each request, how the promise
    it returns is settled. *)
Record Client : Type :=
  { chat_completions_create : ChatRequest -> outcome Completion;
    images_generate : ImageRequest -> outcome ImagesResponse }.

Inductive RemoteCall : Type :=
| ChatCall (request : ChatRequest)
| ImageCall (request : ImageRequest).

End OpenAI.
Export OpenAI.

(** ** Process state and the monad of handlers *)

Module Runtime.

(** The state of the server process: the module-level object
    [conversationHistory] of SupportAgent.js, whose own properties are
    arrays of turns, and a record of every request handed to the
    provider so far, oldest first.  The record is not a variable of the
    program; it makes the calls the program issues observable. *)
Record State : Type :=
  { conversationHistory : gmap string (list ConversationTurn);
    issued : list RemoteCall }.

(** [const conversationHistory = {}] and no request issued. *)
Definition initial : State :=
  {| conversationHistory := ∅; issued := [] |}.

Definition M (A : Type) : Type := State -> outcome A * State.

#[export] Instance M_ret : MRet M := fun A (a : A) st => (Returned a, st).

#[export] Instance M_bind : MBind M := fun A B (f : A -> M B) (m : M A) st =>
  match m st with
  | (Returned a, st') => f a st'
  | (Thrown e, st') => (Thrown e, st')
  end.

Definition throw {A : Type} (e : Error) : M A := fun st => (Thrown e, st).

(** [try { body } catch (error) { handler }].  What [body] did to the
    state before it threw stays done. *)
Definition try_catch {A : Type} (body : M A) (handler : Error -> M A) : M A :=
  fun st =>
    match body st with
    | (Returned a, st') => (Returned a, st')
    | (Thrown e, st') => handler e st'
    end.

(** A synchronous evaluation that may throw, inside a handler. *)
Definition eval {A : Type} (o : outcome A) : M A := fun st => (o, st).

(** [await openai.chat.completions.create(request)]. *)
Definition await_chat (openai : Client) (request : ChatRequest) : M Completion :=
  fun st =>
    (chat_completions_create openai request,
     {| conversationHistory := conversationHistory st;
        issued := issued st ++ [ChatCall request] |}).

(** [await openai.images.generate(request)]. *)
Definition await_image (openai : Client) (request : ImageRequest) : M ImagesResponse :=
  fun st =>
    (images_generate openai request,
     {| conversationHistory := conversationHistory st;
        issued := issued st ++ [ImageCall request] |}).

(** [console.error(...)]: writes to the process's standard error, which
    is not part of [State]. *)
Definition console_error (label : string) (error : Error) : M unit := mret tt.

(** A value that may be [undefined], used as a property key or inside a
    template: [undefined] reads as the text "undefined". *)
Definition to_string (v : option string) : string := default "undefined" v.

End Runtime.
Export Runtime.

(** ** server/agents/CreativeAgent.js *)

Module CreativeAgent.

Record JobBrief : Type := { description : string; userId : option string }.

(** The template literal of [generateQuote]. *)
Definition quote_prompt (description : string) : string :=
  "Based on this marketing job description: " +:+ quoted description +:+
  ", generate a detailed quote in ZAR. The quote should include a breakdown of costs for video, image, and copywriting creation. Format the response as JSON: { "
  +:+ quoted "price" +:+ ": 2500, "
  +:+ quoted "currency" +:+ ": " +:+ quoted "ZAR" +:+ ", "
  +:+ quoted "breakdown" +:+ ": " +:+ quoted "1x 30s HD video, 3x social media posts"
  +:+ " }".

(** [{ price: 1000, currency: "ZAR", breakdown: "Standard marketing package" }] *)
Definition fallback_quote : json :=
  JObj [("price", of_Z 1000);
        ("currency", JStr "ZAR");
        ("breakdown", JStr "Standard marketing package")].

(** [completion.choices[0].message.content]: reading [.message] of an
    absent first choice throws. *)
Definition first_content (completion : Completion) : outcome string :=
  match choices completion with
  | choice :: _ => Returned (content (message choice))
  | [] => Thrown (TypeError "Cannot read properties of undefined (reading 'message')")
  end.

Definition generateQuote (openai : Client) (jobBrief : JobBrief) : M json :=
  let prompt := quote_prompt (description jobBrief) in
  try_catch
    (completion ← await_chat openai
       {| messages := [{| role := user; content := prompt |}];
          model := "gpt-4";
          max_tokens := None |};
     text ← eval (first_content completion);
     quote ← eval (JSON_parse text);
     mret quote)
    (fun error =>
       console_error "Error generating quote:" error;;
       mret fallback_quote).

Definition generateImage (openai : Client) (prompt : string) : M string :=
  response ← await_image openai
    {| image_model := "dall-e-3";
       OpenAI.prompt := prompt;
       size := "1024x1024";
       quality := "hd" |};
  match images_data response with
  | image :: _ => mret (url image)
  | [] => throw (TypeError "Cannot read properties of undefined (reading 'url')")
  end.

(** The request [generateQuote] sends for a description. *)
Definition quote_request (description : string) : ChatRequest :=
  {| messages := [{| role := user; content := quote_prompt description |}];
     model := "gpt-4";
     max_tokens := None |}.

(** The request [generateImage] sends for a prompt. *)
Definition image_request (prompt : string) : ImageRequest :=
  {| image_model := "dall-e-3";
     OpenAI.prompt := prompt;
     size := "1024x1024";
     quality := "hd" |}.

(** The shape the data model gives a Quote:
    [{ price: number, currency: text, breakdown: text }]. *)
Definition well_formed_quote (v : json) : bool :=
  match get v "price", get v "currency", get v "breakdown" with
  | Some (JNum _), Some (JStr _), Some (JStr _) => true
  | _, _, _ => false
  end.

(** A parsed reply that lacks one of the three keys. *)
Definition missing_key (v : json) : bool :=
  match get v "price", get v "currency", get v "breakdown" with
  | Some _, Some _, Some _ => false
  | _, _, _ => true
  end.

End CreativeAgent.

(** ** server/agents/SupportAgent.js *)

Module SupportAgent.

(** The own property names of [Object.prototype], which every object
    literal inherits. *)
Definition Object_prototype : list string :=
  ["constructor"; "__defineGetter__"; "__defineSetter__"; "hasOwnProperty";
   "__lookupGetter__"; "__lookupSetter__"; "isPrototypeOf";
   "propertyIsEnumerable"; "toString"; "valueOf"; "__proto__";
   "toLocaleString"].

(** What [conversationHistory[key]] evaluates to. *)
Inductive property : Type :=
| Own (history : list ConversationTurn)   (* an array stored by this module *)
| Inherited                               (* a member of Object.prototype *)
| Undefined.

Definition get_property (o : gmap string (list ConversationTurn)) (key : string)
  : property :=
  match o !! key with
  | Some history => Own history
  | None => if bool_decide (key ∈ Object_prototype) then Inherited else Undefined
  end.

(** Arrays, functions and objects are truthy; [undefined] is not. *)
Definition truthy (p : property) : bool :=
  match p with
  | Own _ | Inherited => true
  | Undefined => false
  end.

Definition read (key : string) : M property :=
  fun st => (Returned (get_property (conversationHistory st) key), st).

(** [conversationHistory[key] = []] *)
Definition create (key : string) : M unit :=
  fun st =>
    (Returned tt,
     {| conversationHistory := <[key := []]> (conversationHistory st);
        issued := issued st |}).

(** [...history] inside an array literal: the elements of an array; a
    value that is not iterable throws. *)
Definition spread (history : property) : M (list ConversationTurn) :=
  match history with
  | Own turns => mret turns
  | Inherited => throw (TypeError "history is not iterable")
  | Undefined => throw (TypeError "history is not iterable")
  end.

(** [history.push(turn)] and [history.splice(0, n)] change the array that
    [history] refers to, which is the one stored under [key]. *)
Definition push (key : string) (turn : ConversationTurn) : M unit :=
  fun st =>
    (Returned tt,
     {| conversationHistory := alter (fun h => h ++ [turn]) key (conversationHistory st);
        issued := issued st |}).

Definition splice_front (key : string) (n : nat) : M unit :=
  fun st =>
    (Returned tt,
     {| conversationHistory := alter (drop n) key (conversationHistory st);
        issued := issued st |}).

(** [history.length] *)
Definition history_length (key : string) : M nat :=
  fun st => (Returned (length (default [] (conversationHistory st !! key))), st).

Definition persona : ConversationTurn :=
  {| role := system;
     content := "You are Robyn, a friendly and helpful AI support agent for AEGIS Marketing. Answer the user's questions about marketing services, pricing, and their account. Be concise and helpful. If you don't know something, say so." |}.

Definition apology : string :=
  "I'm experiencing a technical issue right now. Please try again in a moment.".

Definition generateResponse (openai : Client) (userMessage : string)
    (userId : option string) : M string :=
  let key := to_string userId in
  existing ← read key;
  (if truthy existing then mret tt else create key);;
  history ← read key;
  past ← spread history;
  let messages :=
    [persona] ++ past ++ [{| role := user; content := userMessage |}] in
  try_catch
    (completion ← await_chat openai
       {| messages := messages; model := "gpt-4"; max_tokens := Some 250 |};
     aiResponse ← eval (CreativeAgent.first_content completion);
     push key {| role := user; content := userMessage |};;
     push key {| role := assistant; content := aiResponse |};;
     len ← history_length key;
     (if (20 <? len)%nat then splice_front key 2 else mret tt);;
     mret aiResponse)
    (fun error =>
       console_error "Error with Support Agent:" error;;
       mret apology).

(** The request a call sends when [past] are the turns on record. *)
Definition chat_request (userMessage : string) (past : list ConversationTurn)
  : ChatRequest :=
  {| messages := [persona] ++ past ++ [{| role := user; content := userMessage |}];
     model := "gpt-4";
     max_tokens := Some 250 |}.

(** The history after one more exchange: both turns appended, then the
    two oldest entries removed when more than 20 are left. *)
Definition after_exchange (past : list ConversationTurn) (userMessage aiResponse : string)
  : list ConversationTurn :=
  let h := past ++ [{| role := user; content := userMessage |};
                    {| role := assistant; content := aiResponse |}] in
  if (20 <? length h)%nat then drop 2 h else h.

(** The [try] statement of [generateResponse] on its own, entered with
    [past] as the elements of [history]. *)
Definition try_statement (openai : Client) (userMessage key : string)
    (past : list ConversationTurn) : M string :=
  try_catch
    (completion ← await_chat openai (chat_request userMessage past);
     aiResponse ← eval (CreativeAgent.first_content completion);
     push key {| role := user; content := userMessage |};;
     push key {| role := assistant; content := aiResponse |};;
     len ← history_length key;
     (if (20 <? len)%nat then splice_front key 2 else mret tt);;
     mret aiResponse)
    (fun error =>
       console_error "Error with Support Agent:" error;;
       mret apology).

(** The state in which the history under [key] has become [h] and
    [request] has been issued. *)
Definition leaving (key : string) (st : State) (h : list ConversationTurn)
    (request : ChatRequest) : State :=
  {| conversationHistory := <[key := h]> (conversationHistory st);
     issued := issued st ++ [ChatCall request] |}.

(** The turns on record for a key; a key without an entry has none. *)
Definition history_of (st : State) (key : string) : list ConversationTurn :=
  default [] (conversationHistory st !! key).

(** Strict alternation that starts with a user turn. *)
Fixpoint alternates (expected : Role) (h : list ConversationTurn) : bool :=
  match h with
  | [] => true
  | t :: rest =>
      match expected, role t with
      | user, user => alternates assistant rest
      | assistant, assistant => alternates user rest
      | _, _ => false
      end
  end.

(** No call ever creates an own property under a name that
    [Object.prototype] already provides: the test [!conversationHistory[key]]
    finds the inherited member and skips the assignment. *)
Definition shadow_free (st : State) : Prop :=
  forall k, k ∈ Object_prototype -> conversationHistory st !! k = None.

Definition other (r : Role) : Role :=
  match r with
  | user => assistant
  | assistant => user
  | system => system
  end.

(** What holds of every history between two calls: at most 20 entries,
    whole exchanges only, user and assistant turns in strict
    alternation from a user turn. *)
Definition well_kept (h : list ConversationTurn) : Prop :=
  length h <= 20 /\ Nat.even (length h) = true /\ alternates user h = true.

End SupportAgent.

(** ** server/agents/Orchestrator.js *)

Module Orchestrator.

(** [{ type, data }] *)
Record ResultEnvelope : Type := { type : string; data : json }.

Definition creative_keywords : list string := ["create ad"; "make a video"; "logo"].
Definition support_keywords : list string := ["support"; "help"; "question"].

Definition rephrase : string :=
  "Sorry, I did not understand your request. Please try rephrasing it.".

Definition processRequest (openai : Client) (userInput : string)
    (userId : option string) : M ResultEnvelope :=
  if includes userInput "create ad" || includes userInput "make a video"
     || includes userInput "logo" then
    let jobBrief :=
      {| CreativeAgent.description := userInput; CreativeAgent.userId := userId |} in
    jobQuote ← CreativeAgent.generateQuote openai jobBrief;
    mret {| type := "job_quote"; data := jobQuote |}
  else if includes userInput "support" || includes userInput "help"
          || includes userInput "question" then
    chatResponse ← SupportAgent.generateResponse openai userInput userId;
    mret {| type := "support_response"; data := JStr chatResponse |}
  else
    mret {| type := "error"; data := JStr rephrase |}.

(** The text contains at least one keyword of the list. *)
Definition mentions (keywords : list string) (text : string) : Prop :=
  exists k, k ∈ keywords /\ contains text k.

End Orchestrator.

(** ** server/routes/api.js *)

Module Api.

(** The parsed body of a request: each field is a text or absent. *)
Record Body : Type := { message : option string; userId : option string }.

Record Response : Type := { status : nat; body : json }.

(** [!message]: [undefined] and the empty text are falsy. *)
Definition falsy (message : option string) : bool :=
  match message with
  | None => true
  | Some text => String.eqb text ""
  end.

(** The JSON document [res.json] sends for an envelope. *)
Definition envelope_json (e : Orchestrator.ResultEnvelope) : json :=
  JObj [("type", JStr (Orchestrator.type e)); ("data", Orchestrator.data e)].

Definition error_json (text : string) : json := JObj [("error", JStr text)].

(** The handler of [router.post('/process-message', ...)]; [res.json]
    without [res.status] answers 200. *)
Definition process_message (openai : Client) (req_body : Body) : M Response :=
  try_catch
    (let message := message req_body in
     let userId := userId req_body in
     if falsy message then
       mret {| status := 400; body := error_json "Message is required" |}
     else
       result ← Orchestrator.processRequest openai (default "" message) userId;
       mret {| status := 200; body := envelope_json result |})
    (fun error =>
       console_error "API Error:" error;;
       mret {| status := 500; body := error_json "Internal server error" |}).

End Api.

(** ** Sequences of calls *)

Module Session.

(** One call of [SupportAgent.generateResponse], with the provider's
    behaviour at the time of the call. *)
Record Call : Type :=
  { provider : Client; userMessage : string; userId : option string }.

Definition step (c : Call) (st : State) : outcome string * State :=
  SupportAgent.generateResponse (provider c) (userMessage c) (userId c) st.

(** Calls made one after the other; the state each leaves is the state
    the next one finds. *)
Fixpoint run (calls : list Call) (st : State) : State :=
  match calls with
  | [] => st
  | c :: rest => run rest (snd (step c st))
  end.

(** The call, made in state [st], issued the request [request]. *)
Definition issues (c : Call) (st : State) (request : ChatRequest) : Prop :=
  issued (snd (step c st)) = issued st ++ [ChatCall request].

(** A successful exchange: the call issued a request, the provider
    fulfilled it, and the completion has a first choice whose text is
    [reply]. *)
Definition succeeds (c : Call) (st : State) (reply : string) : Prop :=
  exists request completion,
    issues c st request
    /\ chat_completions_create (provider c) request = Returned completion
    /\ CreativeAgent.first_content completion = Returned reply.

(** A failed remote call: the call issued a request and the provider
    rejected it. *)
Definition remote_fails (c : Call) (st : State) : Prop :=
  exists request e,
    issues c st request
    /\ chat_completions_create (provider c) request = Thrown e.

(** A failed exchange, that is, a call that ends in the [catch] of
    [generateResponse]: the call issued a request, and either the provider
    rejected it or it fulfilled it with a completion that has no first
    choice to read the reply from. *)
Definition exchange_fails (c : Call) (st : State) : Prop :=
  exists request,
    issues c st request
    /\ ((exists e, chat_completions_create (provider c) request = Thrown e)
        \/ (exists completion e,
              chat_completions_create (provider c) request = Returned completion
              /\ CreativeAgent.first_content completion = Thrown e)).

End Session.

(** ** Calls that overlap *)

Module Overlap.

(** An [async] call gives up control at its [await] and takes it back when
    the promise is settled; other calls may run in between.  The two
    halves of [generateResponse], each of which runs without
    interruption: *)

(** Handing a request to the provider. *)
Definition hand_over (request : ChatRequest) : M ChatRequest :=
  fun st =>
    (Returned request,
     {| conversationHistory := conversationHistory st;
        issued := issued st ++ [ChatCall request] |}).

(** the statements up to the [await], which end by handing the request to
    the provider; *)
Definition before_await (userMessage : string) (userId : option string)
  : M ChatRequest :=
  let key := to_string userId in
  existing ← SupportAgent.read key;
  (if SupportAgent.truthy existing then mret tt else SupportAgent.create key);;
  history ← SupportAgent.read key;
  past ← SupportAgent.spread history;
  hand_over (SupportAgent.chat_request userMessage past).

(** the statements that run once the promise is [settled]. *)
Definition after_await (userMessage : string) (userId : option string)
    (settled : outcome Completion) : M string :=
  let key := to_string userId in
  try_catch
    (completion ← eval settled;
     aiResponse ← eval (CreativeAgent.first_content completion);
     SupportAgent.push key {| role := user; content := userMessage |};;
     SupportAgent.push key {| role := assistant; content := aiResponse |};;
     len ← SupportAgent.history_length key;
     (if (20 <? len)%nat then SupportAgent.splice_front key 2 else mret tt);;
     mret aiResponse)
    (fun error =>
       console_error "Error with Support Agent:" error;;
       mret SupportAgent.apology).

(** What the server's event loop runs next: the first half of a new call,
    or the second half of a call whose promise has been settled. *)
Inductive Turn : Type :=
| Enter (userMessage : string) (userId : option string)
| Resume (userMessage : string) (userId : option string)
    (settled : outcome Completion).

Definition take (t : Turn) (st : State) : State :=
  match t with
  | Enter m u => snd (before_await m u st)
  | Resume m u settled => snd (after_await m u settled st)
  end.

(** Any order of halves of any number of calls. *)
Definition schedule (turns : list Turn) (st : State) : State :=
  fold_left (fun st t => take t st) turns st.

End Overlap.

(** ** Sample providers and inputs *)

Module Examples.

Definition completion_of (text : string) : Completion :=
  {| choices := [{| message := {| role := assistant; content := text |} |}] |}.

Definition sample_image : ImagesResponse :=
  {| images_data := [{| url := "https://images.example/robyn.png" |}] |}.

(** A provider that answers every chat request with the same text. *)
Definition answering (text : string) : Client :=
  {| chat_completions_create := fun _ => Returned (completion_of text);
     images_generate := fun _ => Returned sample_image |}.

(** A provider that cannot be reached. *)
Definition unreachable : Client :=
  {| chat_completions_create := fun _ => Thrown (ProviderError "Connection error.");
     images_generate := fun _ => Thrown (ProviderError "Connection error.") |}.

(** A provider whose completions carry no choice. *)
Definition empty_handed : Client :=
  {| chat_completions_create := fun _ => Returned {| choices := [] |};
     images_generate := fun _ => Returned {| images_data := [] |} |}.

(** The text [{"price": 5}]: valid JSON without [currency] and
    [breakdown]. *)
Definition price_only : string := "{" +:+ quoted "price" +:+ ": 5}".

(** The text [{"price":3000,"currency":"ZAR","breakdown":"1 video"}]. *)
Definition full_quote : string :=
  "{" +:+ quoted "price" +:+ ":3000," +:+ quoted "currency" +:+ ":" +:+ quoted "ZAR"
  +:+ "," +:+ quoted "breakdown" +:+ ":" +:+ quoted "1 video" +:+ "}".

End Examples.

(** ** The server over time *)

Module Server.

(** One HTTP request to POST /process-message, with the provider's
    behaviour while it is handled. *)
Record Hit : Type := { client : Client; request_body : Api.Body }.

Definition handle (h : Hit) (st : State) : outcome Api.Response * State :=
  Api.process_message (client h) (request_body h) st.

(** The state after the requests have been handled one after the other. *)
Fixpoint serve (hits : list Hit) (st : State) : State :=
  match hits with
  | [] => st
  | h :: rest => serve rest (snd (handle h st))
  end.

(** The call of the Support Handler that the router makes for a message. *)
Definition support_call (openai : Client) (text : string) (userId : option string)
  : Session.Call :=
  {| Session.provider := openai; Session.userMessage := text;
     Session.userId := userId |}.

(** The status of the answer, when there is one. *)
Definition status_of (r : outcome Api.Response * State) : option nat :=
  match fst r with
  | Returned response => Some (Api.status response)
  | Thrown _ => None
  end.

End Server.

(** ** Transcripts *)

Module Transcript.

(** The two turns of one exchange. *)
Definition exchange (userMessage reply : string) : list ConversationTurn :=
  [{| role := user; content := userMessage |};
   {| role := assistant; content := reply |}].

(** Calls made one after the other, each of them a successful exchange
    with the reply listed beside it. *)
Fixpoint all_succeed (calls : list (Session.Call * string)) (st : State) : Prop :=
  match calls with
  | [] => True
  | (c, reply) :: rest =>
      Session.succeeds c st reply /\ all_succeed rest (snd (Session.step c st))
  end.

(** Everything said in those calls, oldest first. *)
Definition turns_of (calls : list (Session.Call * string)) : list ConversationTurn :=
  flat_map (fun cr => exchange (Session.userMessage (fst cr)) (snd cr)) calls.

(** The last [n] entries of a list. *)
Definition last_turns (n : nat) (l : list ConversationTurn) : list ConversationTurn :=
  drop (length l - n) l.

End Transcript.

(** * Properties *)

Section IncludesSpec.

Lemma starts_with_spec (s p : string) :
  starts_with s p = true <-> exists rest, s = p +:+ rest.
Proof.
  revert s; induction p as [|c p IH]; intros s; simpl.
  - split; [intros _; by exists s | intros _; reflexivity].
  - destruct s as [|d s]; simpl.
    + split; [done | intros [r Hr]; discriminate].
    + destruct (Ascii.eqb_spec c d) as [->|Hne].
      * rewrite IH. split; intros [r Hr]; exists r.
        -- by rewrite Hr.
        -- by injection Hr.
      * split; [discriminate | intros [r Hr]; injection Hr; congruence].
Qed.

Lemma includes_spec (s k : string) :
  includes s k = true <-> contains s k.
Proof.
  unfold contains. induction s as [|d s IH]; simpl.
  - rewrite orb_false_r, starts_with_spec. split.
    + intros [r Hr]. by exists EmptyString, r.
    + intros [[|b bs] [a Ha]]; simpl in Ha; [by exists a | discriminate].
  - rewrite orb_true_iff, starts_with_spec, IH. split.
    + intros [[r Hr] | (b & a & Hba)].
      * by exists EmptyString, r.
      * exists (String d b), a. simpl. by rewrite Hba.
    + intros [[|b bs] [a Ha]]; simpl in Ha.
      * left. by exists a.
      * right. injection Ha as -> Hs. by exists bs, a.
Qed.

Lemma includes_false (s k : string) :
  includes s k = false <-> ~ contains s k.
Proof.
  rewrite <- includes_spec. destruct (includes s k); split; congruence.
Qed.

End IncludesSpec.

(** ** [JSON.parse] always has enough fuel *)

Section ParserFuel.

Local Open Scope nat_scope.

Lemma skip_ws_length (s : string) : String.length (skip_ws s) <= String.length s.
Proof.
induction s as [|c s IH]; simpl; [lia|].
destruct (is_ws c); simpl; lia.
Qed.

Lemma take_digits_length (s : string) :
  String.length (snd (take_digits s)) + length (fst (take_digits s)) = String.length s.
Proof.
induction s as [|c s IH]; simpl; [lia|].
destruct (digit_of c); simpl; [|lia].
destruct (take_digits s) as [ds r]; simpl in *. lia.
Qed.

Lemma parse_chars_length (s str rest : string) :
  parse_chars s = Some (str, rest) -> String.length rest < String.length s.
Proof.
remember (S (String.length s)) as n eqn:Hn.
assert (Hlt : String.length s < n) by lia. clear Hn.
revert s str rest Hlt. induction n as [|n IHn]; intros s str rest Hlt H; [lia|].
assert (IH : forall s' str' rest',
          String.length s' < String.length s ->
          parse_chars s' = Some (str', rest') ->
          String.length rest' < String.length s')
  by (intros s' str' rest' Hs'; apply IHn; lia).
clear IHn Hlt.
destruct s as [|c r]; [discriminate|]. simpl in H.
destruct (Ascii.eqb c quote_char); [inversion H; subst; simpl; lia|].
destruct (Ascii.eqb c backslash).
- destruct r as [|e r1]; [discriminate|].
  destruct (Ascii.eqb e "u").
  + destruct r1 as [|h1 [|h2 [|h3 [|h4 r5]]]]; try discriminate.
    destruct (hex4 h1 h2 h3 h4) as [hi|]; [|discriminate].
    destruct (if is_high_surrogate hi then low_surrogate_escape r5 else None) as [lo|].
    * destruct r5 as [|? [|? [|? [|? [|? [|? r11]]]]]].
      all: match type of H with
           | match parse_chars ?x with _ => _ end = _ =>
               destruct (parse_chars x) as [[str' rest']|] eqn:Hrec; [|discriminate];
               inversion H; subst; apply IH in Hrec; simpl in *; lia
           end.
    * destruct (parse_chars r5) as [[str' rest']|] eqn:Hrec; [|discriminate].
      inversion H; subst. apply IH in Hrec; simpl in *; lia.
  + destruct (simple_escape e); [|discriminate].
    destruct (parse_chars r1) as [[str' rest']|] eqn:Hrec; [|discriminate].
    inversion H; subst. apply IH in Hrec; simpl in *; lia.
- destruct (N_of_ascii c <? 32)%N; [discriminate|].
  destruct (parse_chars r) as [[str' rest']|] eqn:Hrec; [|discriminate].
  inversion H; subst. apply IH in Hrec; simpl in *; lia.
Qed.

Lemma strip_length (p s rest : string) :
  strip p s = Some rest -> String.length s = String.length p + String.length rest.
Proof.
revert s; induction p as [|c p IH]; intros s H; simpl in H.
- by inversion H.
- destruct s as [|d s]; [discriminate|].
  destruct (Ascii.eqb c d); [|discriminate]. apply IH in H. simpl. lia.
Qed.

Lemma int_part_length (s rest : string) (ds : list Z) :
  int_part s = Some (ds, rest) -> String.length rest < String.length s.
Proof.
unfold int_part. destruct s as [|c r]; [discriminate|].
destruct (Ascii.eqb c "0"); [intros H; inversion H; subst; simpl; lia|].
pose proof (take_digits_length (String c r)) as Hlen.
destruct (take_digits (String c r)) as [[|d ds'] r']; [discriminate|].
intros H; inversion H; subst. simpl in Hlen. simpl. lia.
Qed.

Lemma frac_part_length (s rest : string) (ds : list Z) :
  frac_part s = Some (ds, rest) -> String.length rest <= String.length s.
Proof.
unfold frac_part. destruct s as [|c r]; [intros H; inversion H; subst; simpl; lia|].
destruct (Ascii.eqb c "."); [|intros H; inversion H; subst; simpl; lia].
pose proof (take_digits_length r) as Hlen.
destruct (take_digits r) as [[|d ds'] r']; [discriminate|].
intros H; inversion H; subst. simpl in *. lia.
Qed.

Lemma exp_part_length (s rest : string) (e : Z) :
  exp_part s = Some (e, rest) -> String.length rest <= String.length s.
Proof.
unfold exp_part. destruct s as [|c r]; [intros H; inversion H; subst; simpl; lia|].
destruct (Ascii.eqb c "e" || Ascii.eqb c "E");
  [|intros H; inversion H; subst; simpl; lia].
assert (Hsign : forall neg r1,
          (match r with
           | String sg r' =>
               if Ascii.eqb sg "-" then (true, r')
               else if Ascii.eqb sg "+" then (false, r') else (false, r)
           | EmptyString => (false, r)
           end) = (neg, r1) -> String.length r1 <= String.length r).
{ intros neg r1. destruct r as [|sg r'']; [intros H; inversion H; subst; simpl; lia|].
  destruct (Ascii.eqb sg "-"); [intros H; inversion H; subst; simpl; lia|].
  destruct (Ascii.eqb sg "+"); intros H; inversion H; subst; simpl; lia. }
destruct (match r with String _ _ => _ | EmptyString => _ end) as [neg r1].
specialize (Hsign neg r1 eq_refl).
pose proof (take_digits_length r1) as Hlen.
destruct (take_digits r1) as [[|d ds'] r2]; [discriminate|].
intros H; inversion H; subst. simpl in *. lia.
Qed.

Lemma parse_number_length (s rest : string) (q : Q) :
  parse_number s = Some (q, rest) -> String.length rest < String.length s.
Proof.
unfold parse_number.
assert (Hsign : forall neg s1,
          (match s with
           | String c r => if Ascii.eqb c "-" then (true, r) else (false, s)
           | EmptyString => (false, s)
           end) = (neg, s1) -> String.length s1 <= String.length s).
{ intros neg s1. destruct s as [|c r]; [intros H; inversion H; subst; simpl; lia|].
  destruct (Ascii.eqb c "-"); intros H; inversion H; subst; simpl; lia. }
destruct (match s with String _ _ => _ | EmptyString => _ end) as [neg s1].
specialize (Hsign neg s1 eq_refl).
destruct (int_part s1) as [[ip s2]|] eqn:Hi; [|discriminate].
destruct (frac_part s2) as [[fp s3]|] eqn:Hf; [|discriminate].
destruct (exp_part s3) as [[e s4]|] eqn:He; [|discriminate].
apply int_part_length in Hi. apply frac_part_length in Hf. apply exp_part_length in He.
intros H; inversion H; subst. lia.
Qed.

Local Opaque strip parse_number parse_chars skip_ws.

Ltac parsed_shorter :=
  match goal with
  | H : Parsed _ _ = Parsed _ _ |- _ => inversion H; subst; clear H
  | H : Syntax_error = Parsed _ _ |- _ => discriminate H
  | H : Out_of_fuel = Parsed _ _ |- _ => discriminate H
  end.

Lemma parse_consumes (n : nat) :
  (forall s v r, parse_value n s = Parsed v r -> String.length r < String.length s)
  /\ (forall s acc v r,
        parse_elements n s acc = Parsed v r -> String.length r < String.length s)
  /\ (forall s acc v r,
        parse_members n s acc = Parsed v r -> String.length r < String.length s).
Proof.
induction n as [|n (IHv & IHe & IHm)]; [repeat split; intros; discriminate|].
repeat split.
- intros s v r H. simpl in H.
  pose proof (skip_ws_length s) as Hws.
  destruct (skip_ws s) as [|c r0]; [discriminate|]. simpl in Hws.
  destruct (Ascii.eqb c quote_char).
  { destruct (parse_chars r0) as [[str r']|] eqn:Hc; parsed_shorter.
    apply parse_chars_length in Hc. lia. }
  destruct (Ascii.eqb c "[").
  { pose proof (skip_ws_length r0) as Hws'.
    destruct (skip_ws r0) as [|c' r']; [discriminate|]. simpl in Hws'.
    destruct (Ascii.eqb c' "]"); [parsed_shorter; lia|].
    apply IHe in H. lia. }
  destruct (Ascii.eqb c "{").
  { pose proof (skip_ws_length r0) as Hws'.
    destruct (skip_ws r0) as [|c' r']; [discriminate|]. simpl in Hws'.
    destruct (Ascii.eqb c' "}"); [parsed_shorter; lia|].
    apply IHm in H. lia. }
  destruct (strip "null" (String c r0)) as [r1|] eqn:H1.
  { parsed_shorter. apply strip_length in H1. simpl in H1. lia. }
  destruct (strip "true" (String c r0)) as [r2|] eqn:H2.
  { parsed_shorter. apply strip_length in H2. simpl in H2. lia. }
  destruct (strip "false" (String c r0)) as [r3|] eqn:H3.
  { parsed_shorter. apply strip_length in H3. simpl in H3. lia. }
  destruct (parse_number (String c r0)) as [[q r4]|] eqn:H4; parsed_shorter.
  apply parse_number_length in H4. simpl in H4. lia.
- intros s acc v r H. simpl in H.
  destruct (parse_value n s) as [v0 r0| |] eqn:Hv; try discriminate.
  apply IHv in Hv.
  pose proof (skip_ws_length r0) as Hws.
  destruct (skip_ws r0) as [|c r1]; [discriminate|]. simpl in Hws.
  destruct (Ascii.eqb c ","); [apply IHe in H; lia|].
  destruct (Ascii.eqb c "]"); parsed_shorter. lia.
- intros s acc v r H. simpl in H.
  pose proof (skip_ws_length s) as Hws.
  destruct (skip_ws s) as [|q r0]; [discriminate|]. simpl in Hws.
  destruct (Ascii.eqb q quote_char); [|discriminate].
  destruct (parse_chars r0) as [[k r1]|] eqn:Hk; [|discriminate].
  apply parse_chars_length in Hk.
  pose proof (skip_ws_length r1) as Hws1.
  destruct (skip_ws r1) as [|c r2]; [discriminate|]. simpl in Hws1.
  destruct (Ascii.eqb c ":"); [|discriminate].
  destruct (parse_value n r2) as [v0 r3| |] eqn:Hv; try discriminate.
  apply IHv in Hv.
  pose proof (skip_ws_length r3) as Hws3.
  destruct (skip_ws r3) as [|d r4]; [discriminate|]. simpl in Hws3.
  destruct (Ascii.eqb d ","); [apply IHm in H; lia|].
  destruct (Ascii.eqb d "}"); parsed_shorter. lia.
Qed.

Lemma parse_fuel_enough (n : nat) :
  (forall s, 2 * String.length s + 1 <= n -> parse_value n s <> Out_of_fuel)
  /\ (forall s acc,
        2 * String.length s + 2 <= n -> parse_elements n s acc <> Out_of_fuel)
  /\ (forall s acc,
        2 * String.length s + 2 <= n -> parse_members n s acc <> Out_of_fuel).
Proof.
induction n as [|n (IHv & IHe & IHm)]; [repeat split; intros; lia|].
repeat split.
- intros s Hn. simpl.
  pose proof (skip_ws_length s) as Hws.
  destruct (skip_ws s) as [|c r0]; [discriminate|]. simpl in Hws.
  destruct (Ascii.eqb c quote_char).
  { by destruct (parse_chars r0) as [[str r']|]. }
  destruct (Ascii.eqb c "[").
  { pose proof (skip_ws_length r0) as Hws'.
    destruct (skip_ws r0) as [|c' r']; [discriminate|].
    destruct (Ascii.eqb c' "]"); [discriminate|]. apply IHe. lia. }
  destruct (Ascii.eqb c "{").
  { pose proof (skip_ws_length r0) as Hws'.
    destruct (skip_ws r0) as [|c' r']; [discriminate|].
    destruct (Ascii.eqb c' "}"); [discriminate|]. apply IHm. lia. }
  destruct (strip "null" (String c r0)); [discriminate|].
  destruct (strip "true" (String c r0)); [discriminate|].
  destruct (strip "false" (String c r0)); [discriminate|].
  by destruct (parse_number (String c r0)) as [[q r4]|].
- intros s acc Hn. simpl.
  pose proof (IHv s ltac:(lia)) as Hfuel.
  destruct (parse_value n s) as [v0 r0| |] eqn:Hv; [|discriminate|done].
  apply (proj1 (parse_consumes n)) in Hv.
  pose proof (skip_ws_length r0) as Hws.
  destruct (skip_ws r0) as [|c r1]; [discriminate|]. simpl in Hws.
  destruct (Ascii.eqb c ","); [apply IHe; lia|].
  by destruct (Ascii.eqb c "]").
- intros s acc Hn. simpl.
  pose proof (skip_ws_length s) as Hws.
  destruct (skip_ws s) as [|q r0]; [discriminate|]. simpl in Hws.
  destruct (Ascii.eqb q quote_char); [|discriminate].
  destruct (parse_chars r0) as [[k r1]|] eqn:Hk; [|discriminate].
  apply parse_chars_length in Hk.
  pose proof (skip_ws_length r1) as Hws1.
  destruct (skip_ws r1) as [|c r2]; [discriminate|]. simpl in Hws1.
  destruct (Ascii.eqb c ":"); [|discriminate].
  pose proof (IHv r2 ltac:(lia)) as Hfuel.
  destruct (parse_value n r2) as [v0 r3| |] eqn:Hv; [|discriminate|done].
  apply (proj1 (parse_consumes n)) in Hv.
  pose proof (skip_ws_length r3) as Hws3.
  destruct (skip_ws r3) as [|d r4]; [discriminate|]. simpl in Hws3.
  destruct (Ascii.eqb d ","); [apply IHm; lia|].
  by destruct (Ascii.eqb d "}").
Qed.

(** [JSON_parse] never reports a syntax error for want of fuel: the
    grammar gets through every text with the fuel [parse_fuel] gives. *)
Lemma JSON_parse_fuel (text : string) :
  parse_value (parse_fuel text) text <> Out_of_fuel.
Proof.
apply (proj1 (parse_fuel_enough (parse_fuel text))). unfold parse_fuel. lia.
Qed.

(** More fuel never changes a result. *)
Lemma parse_more_fuel (n : nat) :
  (forall s m, n <= m -> parse_value n s <> Out_of_fuel ->
               parse_value m s = parse_value n s)
  /\ (forall s acc m, n <= m -> parse_elements n s acc <> Out_of_fuel ->
                      parse_elements m s acc = parse_elements n s acc)
  /\ (forall s acc m, n <= m -> parse_members n s acc <> Out_of_fuel ->
                      parse_members m s acc = parse_members n s acc).
Proof.
induction n as [|n (IHv & IHe & IHm)]; [by repeat split|].
repeat split.
- intros s [|m] Hm; [lia|]. simpl.
  destruct (skip_ws s) as [|c r0]; [done|].
  destruct (Ascii.eqb c quote_char); [done|].
  destruct (Ascii.eqb c "[").
  { destruct (skip_ws r0) as [|c' r']; [done|].
    destruct (Ascii.eqb c' "]"); [done|]. apply IHe. lia. }
  destruct (Ascii.eqb c "{"); [|done].
  destruct (skip_ws r0) as [|c' r']; [done|].
  destruct (Ascii.eqb c' "}"); [done|]. apply IHm. lia.
- intros s acc [|m] Hm; [lia|]. simpl. intros Hfuel.
  destruct (parse_value n s) as [v0 r0| |] eqn:Hv; [| |done].
  + rewrite (IHv s m ltac:(lia)), Hv by (rewrite Hv; discriminate).
    destruct (skip_ws r0) as [|c r1]; [done|].
    destruct (Ascii.eqb c ","); [apply IHe; [lia|done]|done].
  + by rewrite (IHv s m ltac:(lia)), Hv by (rewrite Hv; discriminate).
- intros s acc [|m] Hm; [lia|]. simpl. intros Hfuel.
  destruct (skip_ws s) as [|q r0]; [done|].
  destruct (Ascii.eqb q quote_char); [|done].
  destruct (parse_chars r0) as [[k r1]|]; [|done].
  destruct (skip_ws r1) as [|c r2]; [done|].
  destruct (Ascii.eqb c ":"); [|done].
  destruct (parse_value n r2) as [v0 r3| |] eqn:Hv; [| |done].
  + rewrite (IHv r2 m ltac:(lia)), Hv by (rewrite Hv; discriminate).
    destruct (skip_ws r3) as [|d r4]; [done|].
    destruct (Ascii.eqb d ","); [apply IHm; [lia|done]|done].
  + by rewrite (IHv r2 m ltac:(lia)), Hv by (rewrite Hv; discriminate).
Qed.

Lemma JSON_parse_stable (text : string) (n : nat) :
  parse_fuel text <= n ->
  parse_value n text = parse_value (parse_fuel text) text.
Proof.
intros Hn. apply (proj1 (parse_more_fuel (parse_fuel text))); [exact Hn|].
apply JSON_parse_fuel.
Qed.

End ParserFuel.

(** ** What one call of [generateResponse] does *)

Section GenerateResponse.

Import SupportAgent.

Variables (openai : Client) (userMessage : string) (userId : option string).

Let key : string := to_string userId.

Lemma try_statement_run (st : State) (past : list ConversationTurn) :
  conversationHistory st !! key = Some past ->
  try_statement openai userMessage key past st
  = let request := chat_request userMessage past in
    match chat_completions_create openai request with
    | Returned completion =>
        match CreativeAgent.first_content completion with
        | Returned aiResponse =>
            (Returned aiResponse,
             leaving key st (after_exchange past userMessage aiResponse) request)
        | Thrown _ => (Returned apology, leaving key st past request)
        end
    | Thrown _ => (Returned apology, leaving key st past request)
    end.
Proof.
  intros Hk. destruct st as [m log]; simpl in Hk.
  assert (Hsame : leaving key {| conversationHistory := m; issued := log |} past
                    (chat_request userMessage past)
                  = {| conversationHistory := m;
                       issued := log ++ [ChatCall (chat_request userMessage past)] |}).
  { unfold leaving; simpl. by rewrite insert_id. }
  unfold try_statement, try_catch, mbind, M_bind, await_chat; simpl.
  destruct (chat_completions_create openai _) as [completion|e]; simpl;
    [|by rewrite Hsame].
  unfold eval.
  destruct (CreativeAgent.first_content completion) as [a|e]; simpl;
    [|by rewrite Hsame].
  unfold push, history_length; simpl.
  rewrite !lookup_alter_eq, Hk; simpl.
  unfold after_exchange, leaving; simpl.
  rewrite <- app_assoc; simpl.
  destruct (20 <? length _)%nat; simpl.
  - do 2 f_equal.
    rewrite !(alter_alt_Some _ _ _ _ Hk).
    by rewrite !alter_insert_eq, <- app_assoc.
  - do 2 f_equal.
    rewrite !(alter_alt_Some _ _ _ _ Hk).
    by rewrite !alter_insert_eq, <- app_assoc.
Qed.

Lemma generateResponse_inherited (st : State) :
  get_property (conversationHistory st) key = Inherited ->
  generateResponse openai userMessage userId st
  = (Thrown (TypeError "history is not iterable"), st).
Proof.
  intros H. unfold generateResponse, mbind, M_bind, read. fold key.
  rewrite H. cbn. rewrite H. reflexivity.
Qed.

Lemma generateResponse_called (st : State) :
  get_property (conversationHistory st) key <> Inherited ->
  generateResponse openai userMessage userId st
  = let past := history_of st key in
    let request := chat_request userMessage past in
    match chat_completions_create openai request with
    | Returned completion =>
        match CreativeAgent.first_content completion with
        | Returned aiResponse =>
            (Returned aiResponse,
             leaving key st (after_exchange past userMessage aiResponse) request)
        | Thrown _ => (Returned apology, leaving key st past request)
        end
    | Thrown _ => (Returned apology, leaving key st past request)
    end.
Proof.
  intros H.
  change (generateResponse openai userMessage userId st)
    with ((existing ← read key;
           (if truthy existing then mret tt else create key);;
           history ← read key;
           past ← spread history;
           try_statement openai userMessage key past) st).
  unfold mbind, M_bind, read, history_of, get_property in *.
  destruct (conversationHistory st !! key) as [h|] eqn:Hk; simpl.
  - rewrite Hk; simpl. by apply try_statement_run.
  - destruct (bool_decide _); [done|]. simpl.
    rewrite lookup_insert_eq; simpl.
    rewrite (try_statement_run _ []); [|cbn [conversationHistory]; apply lookup_insert_eq].
    unfold leaving; simpl.
    destruct (chat_completions_create openai _) as [completion|e];
      [destruct (CreativeAgent.first_content completion)|];
      by rewrite insert_insert_eq.
Qed.

End GenerateResponse.

(** ** What one call of [generateQuote] does *)

Section GenerateQuote.

Import CreativeAgent.

Variables (openai : Client) (jobBrief : JobBrief) (st : State).

Let request : ChatRequest := quote_request (description jobBrief).

Let st' : State :=
  {| conversationHistory := conversationHistory st;
     issued := issued st ++ [ChatCall request] |}.

Lemma generateQuote_run :
  generateQuote openai jobBrief st
  = match chat_completions_create openai request with
    | Returned completion =>
        match first_content completion with
        | Returned text =>
            match JSON_parse text with
            | Returned quote => (Returned quote, st')
            | Thrown _ => (Returned fallback_quote, st')
            end
        | Thrown _ => (Returned fallback_quote, st')
        end
    | Thrown _ => (Returned fallback_quote, st')
    end.
Proof.
  unfold generateQuote, try_catch, mbind, M_bind, await_chat, eval.
  unfold st', request, quote_request; simpl.
  destruct (chat_completions_create openai _) as [completion|e];
    [|reflexivity].
  destruct (first_content completion) as [text|e]; [|reflexivity].
  destruct (JSON_parse text); reflexivity.
Qed.

Lemma generateQuote_returns :
  exists quote, generateQuote openai jobBrief st = (Returned quote, st').
Proof.
  rewrite generateQuote_run.
  destruct (chat_completions_create openai request) as [completion|e]; [|by eexists].
  destruct (first_content completion) as [text|e]; [|by eexists].
  destruct (JSON_parse text); by eexists.
Qed.

End GenerateQuote.

(** ** The router *)

Section Router.

Import Orchestrator.

Lemma creative_test (userInput : string) :
  includes userInput "create ad" || includes userInput "make a video"
    || includes userInput "logo" = true
  <-> mentions creative_keywords userInput.
Proof.
  unfold mentions, creative_keywords.
  rewrite !orb_true_iff, !includes_spec. split.
  - intros [[H|H]|H]; eexists; (split; [|exact H]); set_solver.
  - intros (k & Hk & H). apply list_elem_of_In in Hk. simpl in Hk.
    destruct Hk as [<-|[<-|[<-|[]]]]; auto.
Qed.

Lemma support_test (userInput : string) :
  includes userInput "support" || includes userInput "help"
    || includes userInput "question" = true
  <-> mentions support_keywords userInput.
Proof.
  unfold mentions, support_keywords.
  rewrite !orb_true_iff, !includes_spec. split.
  - intros [[H|H]|H]; eexists; (split; [|exact H]); set_solver.
  - intros (k & Hk & H). apply list_elem_of_In in Hk. simpl in Hk.
    destruct Hk as [<-|[<-|[<-|[]]]]; auto.
Qed.

Variables (openai : Client) (userInput : string) (userId : option string).
Variable st : State.

Lemma processRequest_creative :
  mentions creative_keywords userInput ->
  processRequest openai userInput userId st
  = (jobQuote ← CreativeAgent.generateQuote openai
       {| CreativeAgent.description := userInput; CreativeAgent.userId := userId |};
     mret {| type := "job_quote"; data := jobQuote |}) st.
Proof.
  intros H%creative_test. unfold processRequest. by rewrite H.
Qed.

Lemma processRequest_support :
  ~ mentions creative_keywords userInput ->
  mentions support_keywords userInput ->
  processRequest openai userInput userId st
  = (chatResponse ← SupportAgent.generateResponse openai userInput userId;
     mret {| type := "support_response"; data := JStr chatResponse |}) st.
Proof.
  intros Hc Hs%support_test.
  rewrite <- creative_test in Hc. apply not_true_is_false in Hc.
  unfold processRequest. by rewrite Hc, Hs.
Qed.

Lemma processRequest_unrecognised :
  ~ mentions creative_keywords userInput ->
  ~ mentions support_keywords userInput ->
  processRequest openai userInput userId st
  = (Returned {| type := "error"; data := JStr rephrase |}, st).
Proof.
  intros Hc Hs.
  rewrite <- creative_test in Hc. apply not_true_is_false in Hc.
  rewrite <- support_test in Hs. apply not_true_is_false in Hs.
  unfold processRequest. by rewrite Hc, Hs.
Qed.

End Router.

(** ** Routing claims *)

Lemma mentions_existsb (keywords : list string) (text : string) :
  Orchestrator.mentions keywords text
  <-> existsb (includes text) keywords = true.
Proof.
  unfold Orchestrator.mentions. rewrite existsb_exists. split.
  - intros (k & Hk & H). exists k. by rewrite <- list_elem_of_In, includes_spec.
  - intros (k & Hk & H). exists k. by rewrite list_elem_of_In, <- includes_spec.
Qed.

Lemma mentions_or_not (keywords : list string) (text : string) :
  Orchestrator.mentions keywords text \/ ~ Orchestrator.mentions keywords text.
Proof.
  rewrite mentions_existsb. destruct (existsb _ _); [by left | right; congruence].
Qed.

Section RoutingClaims.

Import Orchestrator.

Variables (openai : Client) (userInput : string) (userId : option string).
Variable st : State.

(** C4.  A message that contains "create ad", "make a video" or "logo"
    is handed to the Creative Handler, [generateQuote], and
    [processRequest] returns the envelope of type [job_quote] around the
    quote that handler returned.  Nothing is asked about the support
    keywords: the creative test comes first and decides. *)
Theorem creative_keyword_selects_creative_handler :
  mentions creative_keywords userInput ->
  exists (jobQuote : json) (st' : State),
    CreativeAgent.generateQuote openai
      {| CreativeAgent.description := userInput; CreativeAgent.userId := userId |} st
    = (Returned jobQuote, st')
    /\ processRequest openai userInput userId st
       = (Returned {| type := "job_quote"; data := jobQuote |}, st').
Proof.
  intros H. rewrite (processRequest_creative _ _ _ _ H).
  destruct (generateQuote_returns openai
              {| CreativeAgent.description := userInput;
                 CreativeAgent.userId := userId |} st) as [q Hq].
  eexists q, _. split; [exact Hq|].
  unfold mbind, M_bind. by rewrite Hq.
Qed.

(** C6.  A message that contains none of the six keywords gets the
    envelope [{type: 'error', data: <the rephrasing message>}]; on that
    path the router leaves the state as it found it and asks the
    provider nothing.  The router throws nothing of its own: whenever
    [processRequest] throws, the message went to the Support Handler and
    that handler threw the same exception. *)
Theorem unrecognised_message_gets_error_envelope :
  (~ mentions creative_keywords userInput ->
   ~ mentions support_keywords userInput ->
   processRequest openai userInput userId st
   = (Returned {| type := "error"; data := JStr rephrase |}, st))
  /\ (forall (e : Error) (st' : State),
        processRequest openai userInput userId st = (Thrown e, st') ->
        ~ mentions creative_keywords userInput
        /\ mentions support_keywords userInput
        /\ SupportAgent.generateResponse openai userInput userId st = (Thrown e, st')).
Proof.
  split; [apply processRequest_unrecognised|].
  intros e st' Hthrow.
  destruct (mentions_or_not creative_keywords userInput) as [Hc|Hc].
  - rewrite (processRequest_creative _ _ _ _ Hc) in Hthrow.
    destruct (generateQuote_returns openai
                {| CreativeAgent.description := userInput;
                   CreativeAgent.userId := userId |} st) as [q Hq].
    unfold mbind, M_bind in Hthrow. rewrite Hq in Hthrow. discriminate.
  - destruct (mentions_or_not support_keywords userInput) as [Hs|Hs].
    + rewrite (processRequest_support _ _ _ _ Hc Hs) in Hthrow.
      unfold mbind, M_bind in Hthrow.
      destruct (SupportAgent.generateResponse openai userInput userId st)
        as [[r|e'] s]; [discriminate|].
      by inversion Hthrow; subst.
    + rewrite (processRequest_unrecognised _ _ _ _ Hc Hs) in Hthrow. discriminate.
Qed.

(** C10.  The containment tests are case-sensitive: a message that shows
    a keyword only once its letters are lower-cased, and none as it
    stands, gets the [error] envelope and reaches no handler. *)
Theorem keyword_match_is_case_sensitive :
  mentions (creative_keywords ++ support_keywords) (lower userInput) ->
  ~ mentions (creative_keywords ++ support_keywords) userInput ->
  processRequest openai userInput userId st
  = (Returned {| type := "error"; data := JStr rephrase |}, st).
Proof.
  intros _ Hnone. apply processRequest_unrecognised.
  - intros (k & Hk & H). apply Hnone. exists k. split; [|done].
    apply elem_of_app. by left.
  - intros (k & Hk & H). apply Hnone. exists k. split; [|done].
    apply elem_of_app. by right.
Qed.

End RoutingClaims.

Lemma creative_keyword_selects_creative_handler_witness :
  Orchestrator.mentions Orchestrator.creative_keywords "I need help with a logo"
  /\ Orchestrator.mentions Orchestrator.support_keywords "I need help with a logo"
  /\ exists (jobQuote : json) (st' : State),
       CreativeAgent.generateQuote Examples.unreachable
         {| CreativeAgent.description := "I need help with a logo";
            CreativeAgent.userId := Some "u1" |} initial
       = (Returned jobQuote, st')
       /\ Orchestrator.processRequest Examples.unreachable
            "I need help with a logo" (Some "u1") initial
          = (Returned {| Orchestrator.type := "job_quote";
                         Orchestrator.data := jobQuote |}, st').
Proof.
  assert (Hc : Orchestrator.mentions Orchestrator.creative_keywords
                 "I need help with a logo")
    by (apply (proj2 (mentions_existsb _ _)); reflexivity).
  split; [exact Hc|].
  split; [apply (proj2 (mentions_existsb _ _)); reflexivity|].
  exact (creative_keyword_selects_creative_handler
           Examples.unreachable "I need help with a logo" (Some "u1") initial Hc).
Defined.

Lemma unrecognised_message_gets_error_envelope_witness :
  Orchestrator.processRequest Examples.unreachable "good morning" (Some "u1") initial
  = (Returned {| Orchestrator.type := "error";
                 Orchestrator.data := JStr Orchestrator.rephrase |}, initial)
  /\ SupportAgent.generateResponse Examples.unreachable "help" (Some "constructor") initial
     = (Thrown (TypeError "history is not iterable"), initial).
Proof.
  split.
  - apply (proj1 (unrecognised_message_gets_error_envelope
                    Examples.unreachable "good morning" (Some "u1") initial)).
    + intros H%mentions_existsb. discriminate H.
    + intros H%mentions_existsb. discriminate H.
  - apply (proj2 (unrecognised_message_gets_error_envelope
                    Examples.unreachable "help" (Some "constructor") initial)).
    reflexivity.
Defined.

Lemma keyword_match_is_case_sensitive_witness :
  Orchestrator.processRequest Examples.unreachable "Logo design please" (Some "u1") initial
  = (Returned {| Orchestrator.type := "error";
                 Orchestrator.data := JStr Orchestrator.rephrase |}, initial)
  /\ Orchestrator.processRequest Examples.unreachable "HELP" (Some "u1") initial
     = (Returned {| Orchestrator.type := "error";
                    Orchestrator.data := JStr Orchestrator.rephrase |}, initial).
Proof.
  split; apply keyword_match_is_case_sensitive.
  - apply (proj2 (mentions_existsb _ _)); reflexivity.
  - intros H%mentions_existsb. discriminate H.
  - apply (proj2 (mentions_existsb _ _)); reflexivity.
  - intros H%mentions_existsb. discriminate H.
Defined.

(** ** The Support Handler's failure on inherited names *)

Section SupportRoute.

Import Orchestrator.

Variables (openai : Client) (userInput : string) (userId : option string).
Variable st : State.

(** Where the Support Handler gets as far as the provider, the router
    wraps what it returns in an envelope of type [support_response]. *)
Lemma support_keyword_selects_support_handler :
  ~ mentions creative_keywords userInput ->
  mentions support_keywords userInput ->
  SupportAgent.get_property (conversationHistory st) (to_string userId)
    <> SupportAgent.Inherited ->
  exists (chatResponse : string) (st' : State),
    SupportAgent.generateResponse openai userInput userId st
    = (Returned chatResponse, st')
    /\ processRequest openai userInput userId st
       = (Returned {| type := "support_response"; data := JStr chatResponse |}, st').
Proof.
  intros Hc Hs Hown. rewrite (processRequest_support _ _ _ _ Hc Hs).
  unfold mbind, M_bind.
  rewrite (generateResponse_called _ _ _ _ Hown). cbv zeta.
  destruct (chat_completions_create openai _) as [completion|e];
    [destruct (CreativeAgent.first_content completion)|]; by eexists _, _.
Qed.

(** Where the user id names a member of [Object.prototype] that the
    store does not hold as an own property, the Support Handler throws
    before it reaches its [try] statement, and so does the router. *)
Lemma support_route_throws_on_inherited :
  ~ mentions creative_keywords userInput ->
  mentions support_keywords userInput ->
  SupportAgent.get_property (conversationHistory st) (to_string userId)
    = SupportAgent.Inherited ->
  processRequest openai userInput userId st
  = (Thrown (TypeError "history is not iterable"), st).
Proof.
  intros Hc Hs Hinh. rewrite (processRequest_support _ _ _ _ Hc Hs).
  unfold mbind, M_bind. by rewrite (generateResponse_inherited _ _ _ _ Hinh).
Qed.

End SupportRoute.

Lemma process_message_run (openai : Client) (req_body : Api.Body) (st : State)
    (text : string) :
  Api.message req_body = Some text -> text <> "" ->
  Api.process_message openai req_body st
  = match Orchestrator.processRequest openai text (Api.userId req_body) st with
    | (Returned result, st') =>
        (Returned {| Api.status := 200; Api.body := Api.envelope_json result |}, st')
    | (Thrown _, st') =>
        (Returned {| Api.status := 500;
                     Api.body := Api.error_json "Internal server error" |}, st')
    end.
Proof.
  intros Hm Hne. unfold Api.process_message, try_catch. rewrite Hm. simpl.
  apply String.eqb_neq in Hne. rewrite Hne.
  unfold mbind, M_bind.
  by destruct (Orchestrator.processRequest openai text (Api.userId req_body) st)
    as [[result|e] st'].
Qed.

(** ** The HTTP route *)

Section Route.

Import Api.

Variables (openai : Client) (req_body : Body) (st : State).

(** C8.  A body whose [message] is absent or empty is answered 400 with
    [{error: "Message is required"}]; the router is not run: the state
    is untouched and no request leaves.  Any other message goes to the
    router: what the router returns is sent with status 200, and an
    exception out of it is answered 500 with
    [{error: "Internal server error"}]. *)
Theorem process_message_statuses :
  (message req_body = None \/ message req_body = Some "" ->
   process_message openai req_body st
   = (Returned {| status := 400; body := error_json "Message is required" |}, st))
  /\ (forall (text : string) (result : Orchestrator.ResultEnvelope) (st' : State),
        message req_body = Some text -> text <> "" ->
        Orchestrator.processRequest openai text (userId req_body) st
          = (Returned result, st') ->
        process_message openai req_body st
        = (Returned {| status := 200; body := envelope_json result |}, st'))
  /\ (forall (text : string) (e : Error) (st' : State),
        message req_body = Some text -> text <> "" ->
        Orchestrator.processRequest openai text (userId req_body) st
          = (Thrown e, st') ->
        process_message openai req_body st
        = (Returned {| status := 500; body := error_json "Internal server error" |},
           st')).
Proof.
  repeat split.
  - unfold process_message, try_catch. intros [-> | ->]; reflexivity.
  - intros text result st' Hm Hne Hrun.
    by rewrite (process_message_run _ _ _ _ Hm Hne), Hrun.
  - intros text e st' Hm Hne Hrun.
    by rewrite (process_message_run _ _ _ _ Hm Hne), Hrun.
Qed.

End Route.

Lemma process_message_statuses_witness :
  Api.process_message (Examples.answering Examples.full_quote)
    {| Api.message := Some ""; Api.userId := Some "u1" |} initial
  = (Returned {| Api.status := 400;
                 Api.body := Api.error_json "Message is required" |}, initial)
  /\ fst (Api.process_message (Examples.answering Examples.full_quote)
            {| Api.message := Some "I want to create ad for my brand";
               Api.userId := Some "u1" |} initial)
     = Returned
         {| Api.status := 200;
            Api.body :=
              JObj [("type", JStr "job_quote");
                    ("data", JObj [("price", of_Z 3000); ("currency", JStr "ZAR");
                                   ("breakdown", JStr "1 video")])] |}
  /\ fst (Api.process_message Examples.unreachable
            {| Api.message := Some "I want to create ad for my brand";
               Api.userId := Some "u1" |} initial)
     = Returned
         {| Api.status := 200;
            Api.body :=
              JObj [("type", JStr "job_quote"); ("data", CreativeAgent.fallback_quote)] |}
  /\ fst (Api.process_message Examples.unreachable
            {| Api.message := Some "help"; Api.userId := Some "toString" |} initial)
     = Returned {| Api.status := 500;
                   Api.body := Api.error_json "Internal server error" |}.
Proof.
  split; [|split; [|split]].
  - apply (proj1 (process_message_statuses _ _ _)). by right.
  - rewrite (proj1 (proj2 (process_message_statuses _ _ _))
               "I want to create ad for my brand"
               {| Orchestrator.type := "job_quote";
                  Orchestrator.data :=
                    JObj [("price", of_Z 3000); ("currency", JStr "ZAR");
                          ("breakdown", JStr "1 video")] |}
               (snd (Orchestrator.processRequest (Examples.answering Examples.full_quote)
                       "I want to create ad for my brand" (Some "u1") initial)));
      [reflexivity | reflexivity | discriminate | vm_compute; reflexivity].
  - rewrite (proj1 (proj2 (process_message_statuses _ _ _))
               "I want to create ad for my brand"
               {| Orchestrator.type := "job_quote";
                  Orchestrator.data := CreativeAgent.fallback_quote |}
               (snd (Orchestrator.processRequest Examples.unreachable
                       "I want to create ad for my brand" (Some "u1") initial)));
      [reflexivity | reflexivity | discriminate | vm_compute; reflexivity].
  - rewrite (proj2 (proj2 (process_message_statuses _ _ _))
               "help" (TypeError "history is not iterable") initial);
      [reflexivity | reflexivity | discriminate | vm_compute; reflexivity].
Defined.

(** ** Histories across calls *)

Section Histories.

Import SupportAgent Session.

Lemma alternates_app (r : Role) (h1 h2 : list ConversationTurn) :
  alternates r (h1 ++ h2)
  = alternates r h1
    && alternates (if Nat.even (length h1) then r else other r) h2.
Proof.
  revert r; induction h1 as [|t h1 IH]; intros r.
  - reflexivity.
  - cbn [app alternates length].
    destruct r, (role t); try reflexivity; rewrite IH, Nat.even_succ,
      <- Nat.negb_even; by destruct (Nat.even (length h1)).
Qed.


(** Appending one exchange and trimming keeps a history well kept, and
    what the trim removes is the oldest exchange. *)
Lemma after_exchange_well_kept (h : list ConversationTurn) (m a : string) :
  well_kept h -> well_kept (after_exchange h m a).
Proof.
  intros (Hlen & Heven & Halt). unfold after_exchange.
  set (h' := h ++ _).
  assert (Hlen' : length h' = length h + 2)
    by (unfold h'; rewrite length_app; reflexivity).
  assert (Heven' : Nat.even (length h') = true).
  { rewrite Hlen', Nat.add_comm. simpl. exact Heven. }
  assert (Halt' : alternates user h' = true).
  { unfold h'. rewrite alternates_app, Halt, Heven. reflexivity. }
  destruct (20 <? length h')%nat eqn:Hcap.
  - apply Nat.ltb_lt in Hcap.
    destruct h' as [|x [|y rest]]; simpl in *; try lia.
    destruct (role x), (role y); try discriminate.
    rewrite drop_0. repeat split; [lia | exact Heven' | exact Halt'].
  - apply Nat.ltb_ge in Hcap. by repeat split.
Qed.

Lemma history_of_leaving (key : string) (st : State) (h : list ConversationTurn)
    (request : ChatRequest) (k : string) :
  history_of (leaving key st h request) k
  = if decide (key = k) then h else history_of st k.
Proof.
  unfold history_of, leaving; simpl. rewrite lookup_insert.
  by destruct (decide (key = k)).
Qed.

Lemma inherited_or_not (p : property) : p = Inherited \/ p <> Inherited.
Proof. destruct p; [right | left | right]; done. Qed.

Variables (c : Call) (st : State).

Let key : string := to_string (userId c).
Let past : list ConversationTurn := history_of st key.

(** A call issues at most one request, and which one is fixed by the
    message and the history on record. *)
Lemma issues_inv (request : ChatRequest) :
  issues c st request ->
  get_property (conversationHistory st) key <> Inherited
  /\ request = chat_request (userMessage c) past.
Proof.
  unfold issues, step. intros Hlog.
  destruct (inherited_or_not (get_property (conversationHistory st) key))
    as [Hinh|Hown].
  - rewrite (generateResponse_inherited _ _ _ _ Hinh) in Hlog. simpl in Hlog.
    apply (f_equal length) in Hlog. rewrite length_app in Hlog. simpl in Hlog. lia.
  - split; [exact Hown|].
    rewrite (generateResponse_called _ _ _ _ Hown) in Hlog. cbv zeta in Hlog.
    fold key in Hlog. fold past in Hlog.
    assert (Hl : issued st ++ [ChatCall request]
                 = issued st ++ [ChatCall (chat_request (userMessage c) past)]).
    { rewrite <- Hlog.
      destruct (chat_completions_create _ _) as [completion|e];
        [destruct (CreativeAgent.first_content completion)|]; reflexivity. }
    apply app_inv_head in Hl. by inversion Hl.
Qed.

Lemma step_succeeds (reply : string) :
  succeeds c st reply ->
  step c st
  = (Returned reply,
     leaving key st (after_exchange past (userMessage c) reply)
       (chat_request (userMessage c) past)).
Proof.
  intros (request & completion & Hiss & Hchat & Hfirst).
  destruct (issues_inv _ Hiss) as [Hown ->].
  unfold step. rewrite (generateResponse_called _ _ _ _ Hown). cbv zeta.
  fold key. fold past. by rewrite Hchat, Hfirst.
Qed.

Lemma step_remote_fails :
  remote_fails c st ->
  step c st
  = (Returned apology, leaving key st past (chat_request (userMessage c) past)).
Proof.
  intros (request & e & Hiss & Hchat).
  destruct (issues_inv _ Hiss) as [Hown ->].
  unfold step. rewrite (generateResponse_called _ _ _ _ Hown). cbv zeta.
  fold key. fold past. by rewrite Hchat.
Qed.

(** Whatever a call does, it leaves each history either as it was or
    one exchange further. *)
Lemma step_history (k : string) :
  history_of (snd (step c st)) k = history_of st k
  \/ exists m a, history_of (snd (step c st)) k = after_exchange (history_of st k) m a.
Proof.
  unfold step.
  destruct (inherited_or_not (get_property (conversationHistory st) key))
    as [Hinh|Hown].
  - fold key in Hinh. rewrite (generateResponse_inherited _ _ _ _ Hinh). by left.
  - rewrite (generateResponse_called _ _ _ _ Hown). cbv zeta. fold key. fold past.
    destruct (chat_completions_create _ _) as [completion|e];
      [destruct (CreativeAgent.first_content completion) as [a|e]|];
      simpl snd; rewrite history_of_leaving; destruct (decide (key = k)) as [<-|];
      try (by left).
    right. by eexists _, _.
Qed.

Lemma step_well_kept :
  (forall k, well_kept (history_of st k)) ->
  forall k, well_kept (history_of (snd (step c st)) k).
Proof.
  intros Hinv k. destruct (step_history k) as [-> | (m & a & ->)]; [done|].
  by apply after_exchange_well_kept.
Qed.

End Histories.

Lemma run_app (calls1 calls2 : list Session.Call) (st : State) :
  Session.run (calls1 ++ calls2) st = Session.run calls2 (Session.run calls1 st).
Proof.
  revert st; induction calls1 as [|c calls1 IH]; intros st; [done|].
  simpl. apply IH.
Qed.

Lemma run_well_kept (calls : list Session.Call) (st : State) :
  (forall k, SupportAgent.well_kept (SupportAgent.history_of st k)) ->
  forall k, SupportAgent.well_kept (SupportAgent.history_of (Session.run calls st) k).
Proof.
  revert st; induction calls as [|c calls IH]; intros st Hinv; [done|].
  simpl. apply IH. by apply step_well_kept.
Qed.

Lemma initial_well_kept (k : string) :
  SupportAgent.well_kept (SupportAgent.history_of initial k).
Proof.
  unfold SupportAgent.history_of, initial; simpl. rewrite lookup_empty.
  repeat split. simpl. lia.
Qed.

(** ** Inherited names are never stored *)

Section InheritedNames.

Import SupportAgent Session.

Lemma shadow_free_inherited (st : State) (k : string) :
  shadow_free st -> k ∈ Object_prototype ->
  get_property (conversationHistory st) k = Inherited.
Proof.
intros Hfree Hk. unfold get_property. rewrite (Hfree k Hk).
by rewrite bool_decide_eq_true_2.
Qed.

Lemma step_shadow_free (c : Call) (st : State) :
  shadow_free st -> shadow_free (snd (step c st)).
Proof.
intros Hfree k Hk. unfold step.
destruct (inherited_or_not
            (get_property (conversationHistory st) (to_string (userId c))))
  as [Hinh|Hown].
- rewrite (generateResponse_inherited _ _ _ _ Hinh). by apply Hfree.
- rewrite (generateResponse_called _ _ _ _ Hown). cbv zeta.
  assert (Hne : to_string (userId c) <> k).
  { intros Heq. apply Hown. rewrite Heq. by apply shadow_free_inherited. }
  destruct (chat_completions_create _ _) as [completion|e];
    [destruct (CreativeAgent.first_content completion)|];
    simpl; rewrite lookup_insert_ne by done; by apply Hfree.
Qed.

Lemma run_shadow_free (calls : list Call) : shadow_free (run calls initial).
Proof.
assert (H : forall st, shadow_free st -> shadow_free (run calls st)).
{ induction calls as [|c calls IH]; intros st Hst; [done|].
  simpl. apply IH. by apply step_shadow_free. }
apply H. intros k _. apply lookup_empty.
Qed.

End InheritedNames.

(** C5.  A message that contains "support", "help" or "question" and no
    creative keyword is handed to the Support Handler, and the router is
    to return an envelope of type [support_response].  Evaluated at the
    message "help" from the user id "constructor", on a freshly started
    server or after any calls whatever: the message holds a support
    keyword and no creative one, yet [processRequest] returns no
    envelope; it throws the [TypeError] of spreading
    [conversationHistory["constructor"]], whatever the provider does, and
    the route answers 500. *)
Theorem support_route_on_constructor_userId (openai : Client)
    (calls : list Session.Call) :
  let st := Session.run calls initial in
  Orchestrator.mentions Orchestrator.support_keywords "help"
  /\ ~ Orchestrator.mentions Orchestrator.creative_keywords "help"
  /\ Orchestrator.processRequest openai "help" (Some "constructor") st
     = (Thrown (TypeError "history is not iterable"), st)
  /\ Api.process_message openai
       {| Api.message := Some "help"; Api.userId := Some "constructor" |} st
     = (Returned {| Api.status := 500;
                    Api.body := Api.error_json "Internal server error" |}, st).
Proof.
intros st.
assert (Hs : Orchestrator.mentions Orchestrator.support_keywords "help")
  by (apply (proj2 (mentions_existsb _ _)); reflexivity).
assert (Hc : ~ Orchestrator.mentions Orchestrator.creative_keywords "help")
  by (intros H%mentions_existsb; discriminate H).
assert (Hrun : Orchestrator.processRequest openai "help" (Some "constructor") st
               = (Thrown (TypeError "history is not iterable"), st)).
{ apply support_route_throws_on_inherited; [exact Hc | exact Hs |].
  apply shadow_free_inherited; [apply run_shadow_free|].
  apply list_elem_of_In. simpl. by left. }
split; [exact Hs|]. split; [exact Hc|]. split; [exact Hrun|].
rewrite (process_message_run _ _ _ "help"); [|reflexivity|discriminate].
simpl Api.userId. by rewrite Hrun.
Qed.

(** ** Support Handler claims *)

Section SupportClaims.

Import SupportAgent Session.

(** A provider that answers every request with [text] makes every call
    under a name the store can hold a successful exchange. *)
Lemma answering_succeeds (text m : string) (u : option string) (st : State) :
  get_property (conversationHistory st) (to_string u) <> Inherited ->
  succeeds {| provider := Examples.answering text; userMessage := m; userId := u |}
    st text.
Proof.
  intros Hown.
  exists (chat_request m (history_of st (to_string u))), (Examples.completion_of text).
  split; [|by split].
  unfold issues, step; simpl.
  by rewrite (generateResponse_called _ _ _ _ Hown).
Qed.

Variable calls : list Call.

Let st : State := run calls initial.

(** C2.  After any sequence of [generateResponse] calls on a freshly
    started server, successful or not, the history of every user id has
    at most 20 entries and is a strict alternation of user and assistant
    turns that starts with a user turn.  A successful call appends the
    user turn and the assistant turn; when that makes more than 20
    entries, exactly the two oldest, a user turn and the assistant turn
    after it, are removed. *)
Theorem history_capped_and_alternating (key : string) :
  length (history_of st key) <= 20
  /\ alternates user (history_of st key) = true
  /\ forall (c : Call) (reply : string),
       to_string (userId c) = key ->
       succeeds c st reply ->
       let appended :=
         history_of st key
         ++ [{| role := user; content := userMessage c |};
             {| role := assistant; content := reply |}] in
       let next := history_of (run (calls ++ [c]) initial) key in
       (length appended <= 20 -> next = appended)
       /\ (20 < length appended ->
           exists u a, appended = u :: a :: next
                       /\ role u = user /\ role a = assistant).
Proof.
  destruct (run_well_kept calls initial initial_well_kept key)
    as (Hlen & Heven & Halt).
  fold st in Hlen, Heven, Halt.
  split; [exact Hlen|]. split; [exact Halt|].
  intros c reply Hkey Hsucc appended next.
  assert (Hnext : next = after_exchange (history_of st key) (userMessage c) reply).
  { unfold next. rewrite run_app. fold st. simpl.
    rewrite (step_succeeds _ _ _ Hsucc). simpl snd.
    rewrite Hkey, history_of_leaving. by rewrite decide_True. }
  unfold after_exchange in Hnext. fold appended in Hnext.
  assert (Halt' : alternates user appended = true).
  { unfold appended. rewrite alternates_app, Halt, Heven. reflexivity. }
  split.
  - intros Hfit. apply Nat.ltb_ge in Hfit. by rewrite Hfit in Hnext.
  - intros Hover. pose proof Hover as Hcap. apply Nat.ltb_lt in Hcap.
    rewrite Hcap in Hnext.
    destruct appended as [|u [|a rest]]; simpl in Hover; try lia.
    exists u, a. simpl in Halt'. simpl in Hnext. rewrite drop_0 in Hnext.
    destruct (role u), (role a); try discriminate. by rewrite Hnext.
Qed.

Variable c : Call.

Let key : string := to_string (userId c).


End SupportClaims.

(** What a call does when its exchange fails, on either path into the
    [catch]. *)
Lemma step_exchange_fails (c : Session.Call) (st : State) :
  Session.exchange_fails c st ->
  Session.step c st
  = (Returned SupportAgent.apology,
     SupportAgent.leaving (to_string (Session.userId c)) st
       (SupportAgent.history_of st (to_string (Session.userId c)))
       (SupportAgent.chat_request (Session.userMessage c)
          (SupportAgent.history_of st (to_string (Session.userId c))))).
Proof.
intros (request & Hiss & Hcatch).
destruct (issues_inv _ _ _ Hiss) as [Hown ->].
unfold Session.step. rewrite (generateResponse_called _ _ _ _ Hown). cbv zeta.
destruct Hcatch as [[e Hchat] | (completion & e & Hchat & Hfirst)].
- by rewrite Hchat.
- by rewrite Hchat, Hfirst.
Qed.

(** C3.  When the remote call of [generateResponse] fails, whether the
    provider rejects the request or answers it with a completion that has
    no first choice, the call ends in its [catch]: it returns the fixed
    apology and the turns on record are, for every user id, what they
    were before: neither the user's turn nor any other is appended.  The
    store itself differs at most by the array the call created for a user
    id that had none, which holds no turn. *)
Theorem remote_failure_returns_apology (c : Session.Call) (st : State) :
  Session.exchange_fails c st ->
  fst (Session.step c st) = Returned SupportAgent.apology
  /\ (forall k : string,
        SupportAgent.history_of (snd (Session.step c st)) k
        = SupportAgent.history_of st k)
  /\ conversationHistory (snd (Session.step c st))
     = <[to_string (Session.userId c) :=
           SupportAgent.history_of st (to_string (Session.userId c))]>
         (conversationHistory st).
Proof.
intros Hfail. rewrite (step_exchange_fails _ _ Hfail). split; [done|]. split; [|done].
intros k. simpl snd. rewrite history_of_leaving.
by destruct (decide (_ = k)) as [<-|].
Qed.

Lemma history_capped_and_alternating_witness :
  let c := {| Session.provider := Examples.answering "Happy to help.";
              Session.userMessage := "I have a question";
              Session.userId := Some "u1" |} in
  let calls := repeat c 10 in
  length (SupportAgent.history_of (Session.run calls initial) "u1") = 20
  /\ Session.succeeds c (Session.run calls initial) "Happy to help."
  /\ exists u a,
       SupportAgent.history_of (Session.run calls initial) "u1"
       ++ [{| role := user; content := "I have a question" |};
           {| role := assistant; content := "Happy to help." |}]
       = u :: a :: SupportAgent.history_of (Session.run (calls ++ [c]) initial) "u1"
       /\ role u = user /\ role a = assistant.
Proof.
  intros c calls.
  assert (Hsucc : Session.succeeds c (Session.run calls initial) "Happy to help.")
    by (apply answering_succeeds; vm_compute; discriminate).
  split; [vm_compute; reflexivity|]. split; [exact Hsucc|].
  apply (proj2 (proj2 (history_capped_and_alternating calls "u1"))
           c "Happy to help." eq_refl Hsucc).
  vm_compute. lia.
Defined.


Lemma remote_failure_returns_apology_witness :
  let rejected := {| Session.provider := Examples.unreachable;
                     Session.userMessage := "I have a question";
                     Session.userId := Some "u1" |} in
  let malformed := {| Session.provider := Examples.empty_handed;
                      Session.userMessage := "I have a question";
                      Session.userId := Some "u1" |} in
  let st := Session.run [{| Session.provider := Examples.answering "Happy to help.";
                           Session.userMessage := "help";
                           Session.userId := Some "u1" |}] initial in
  (Session.exchange_fails rejected st
   /\ fst (Session.step rejected st) = Returned SupportAgent.apology
   /\ SupportAgent.history_of (snd (Session.step rejected st)) "u1"
      = [{| role := user; content := "help" |};
         {| role := assistant; content := "Happy to help." |}])
  /\ (Session.exchange_fails malformed st
      /\ fst (Session.step malformed st) = Returned SupportAgent.apology
      /\ SupportAgent.history_of (snd (Session.step malformed st)) "u1"
         = [{| role := user; content := "help" |};
            {| role := assistant; content := "Happy to help." |}]).
Proof.
intros rejected malformed st.
assert (Hrejected : Session.exchange_fails rejected st).
{ exists (SupportAgent.chat_request "I have a question"
            (SupportAgent.history_of st "u1")).
  split; [vm_compute; reflexivity|]. left.
  by exists (ProviderError "Connection error."). }
assert (Hmalformed : Session.exchange_fails malformed st).
{ exists (SupportAgent.chat_request "I have a question"
            (SupportAgent.history_of st "u1")).
  split; [vm_compute; reflexivity|]. right.
  by exists {| choices := [] |},
            (TypeError "Cannot read properties of undefined (reading 'message')"). }
split.
- split; [exact Hrejected|].
  destruct (remote_failure_returns_apology rejected st Hrejected) as (Hret & Hsame & _).
  split; [exact Hret|]. rewrite Hsame. vm_compute. reflexivity.
- split; [exact Hmalformed|].
  destruct (remote_failure_returns_apology malformed st Hmalformed)
    as (Hret & Hsame & _).
  split; [exact Hret|]. rewrite Hsame. vm_compute. reflexivity.
Defined.

(** ** Creative Handler claims *)

Section CreativeClaims.

Import CreativeAgent.

Variables (openai : Client) (st : State).

(** C1, as the code has it.  [generateQuote] never throws.  When the
    remote call is rejected, when the completion has no first choice,
    or when the reply is not valid JSON, the result is exactly the fixed
    fallback quote.  A reply that is valid JSON is returned as parsed,
    whatever its keys: no check for [price], [currency] or [breakdown]
    is made. *)
Theorem generateQuote_falls_back_or_returns_parsed (jobBrief : JobBrief) :
  let request := quote_request (description jobBrief) in
  let result := fst (generateQuote openai jobBrief st) in
  (exists quote : json, result = Returned quote)
  /\ (forall e : Error,
        chat_completions_create openai request = Thrown e ->
        result = Returned fallback_quote)
  /\ (forall (completion : Completion) (e : Error),
        chat_completions_create openai request = Returned completion ->
        first_content completion = Thrown e ->
        result = Returned fallback_quote)
  /\ (forall (completion : Completion) (text : string) (e : Error),
        chat_completions_create openai request = Returned completion ->
        first_content completion = Returned text ->
        JSON_parse text = Thrown e ->
        result = Returned fallback_quote)
  /\ (forall (completion : Completion) (text : string) (quote : json),
        chat_completions_create openai request = Returned completion ->
        first_content completion = Returned text ->
        JSON_parse text = Returned quote ->
        result = Returned quote).
Proof.
  intros request result.
  split; [|repeat split].
  - destruct (generateQuote_returns openai jobBrief st) as [q Hq].
    exists q. unfold result. by rewrite Hq.
  - intros e H. unfold result. rewrite generateQuote_run. fold request.
    by rewrite H.
  - intros completion e H1 H2. unfold result. rewrite generateQuote_run.
    fold request. by rewrite H1, H2.
  - intros completion text e H1 H2 H3. unfold result. rewrite generateQuote_run.
    fold request. by rewrite H1, H2, H3.
  - intros completion text quote H1 H2 H3. unfold result. rewrite generateQuote_run.
    fold request. by rewrite H1, H2, H3.
Qed.

(** C9.  [generateImage] has no [catch]: it returns the URL of the first
    image the provider delivers, and when the provider rejects the call
    that exception leaves [generateImage] unchanged, where
    [generateQuote] under the same provider still returns a quote. *)
Theorem generateImage_propagates_failure (prompt : string) :
  (forall (response : ImagesResponse) (image : Image) (others : list Image),
     images_generate openai (image_request prompt) = Returned response ->
     images_data response = image :: others ->
     fst (generateImage openai prompt st) = Returned (url image))
  /\ (forall e : Error,
        images_generate openai (image_request prompt) = Thrown e ->
        fst (generateImage openai prompt st) = Thrown e)
  /\ (forall jobBrief : JobBrief,
        exists quote : json,
          fst (generateQuote openai jobBrief st) = Returned quote).
Proof.
  unfold generateImage, mbind, M_bind, await_image. fold (image_request prompt).
  repeat split.
  - intros response image others -> Himg. by rewrite Himg.
  - by intros e ->.
  - intros jobBrief. destruct (generateQuote_returns openai jobBrief st) as [q Hq].
    exists q. by rewrite Hq.
Qed.

End CreativeClaims.

Lemma generateQuote_falls_back_or_returns_parsed_witness :
  let jobBrief := {| CreativeAgent.description := "a logo for my bakery";
                     CreativeAgent.userId := Some "u1" |} in
  fst (CreativeAgent.generateQuote Examples.unreachable jobBrief initial)
  = Returned CreativeAgent.fallback_quote
  /\ fst (CreativeAgent.generateQuote Examples.empty_handed jobBrief initial)
     = Returned CreativeAgent.fallback_quote
  /\ fst (CreativeAgent.generateQuote
            (Examples.answering "Sure! The price is 2500 ZAR.") jobBrief initial)
     = Returned CreativeAgent.fallback_quote
  /\ fst (CreativeAgent.generateQuote (Examples.answering Examples.full_quote)
            jobBrief initial)
     = Returned (JObj [("price", of_Z 3000); ("currency", JStr "ZAR");
                       ("breakdown", JStr "1 video")]).
Proof.
  intros jobBrief. split; [|split; [|split]].
  - apply (proj1 (proj2 (generateQuote_falls_back_or_returns_parsed
                           Examples.unreachable initial jobBrief))
             (ProviderError "Connection error.")).
    reflexivity.
  - apply (proj1 (proj2 (proj2 (generateQuote_falls_back_or_returns_parsed
                                  Examples.empty_handed initial jobBrief)))
             {| choices := [] |}
             (TypeError "Cannot read properties of undefined (reading 'message')"));
      reflexivity.
  - apply (proj1 (proj2 (proj2 (proj2 (generateQuote_falls_back_or_returns_parsed
             (Examples.answering "Sure! The price is 2500 ZAR.") initial jobBrief))))
             (Examples.completion_of "Sure! The price is 2500 ZAR.")
             "Sure! The price is 2500 ZAR."
             (SyntaxError "Unexpected token in JSON"));
      reflexivity.
  - apply (proj2 (proj2 (proj2 (proj2 (generateQuote_falls_back_or_returns_parsed
             (Examples.answering Examples.full_quote) initial jobBrief))))
             (Examples.completion_of Examples.full_quote) Examples.full_quote);
      [reflexivity | reflexivity | vm_compute; reflexivity].
Defined.

(** The reply [{"price": 5}] is valid JSON that lacks [currency] and
    [breakdown]; [generateQuote] returns it as it is, not the fallback, and
    what it returns is not a well-formed Quote. *)
Lemma generateQuote_missing_keys_counterexample :
  let jobBrief := {| CreativeAgent.description := "a logo for my bakery";
                     CreativeAgent.userId := Some "u1" |} in
  let result := fst (CreativeAgent.generateQuote
                       (Examples.answering Examples.price_only) jobBrief initial) in
  JSON_parse Examples.price_only = Returned (JObj [("price", of_Z 5)])
  /\ CreativeAgent.missing_key (JObj [("price", of_Z 5)]) = true
  /\ result = Returned (JObj [("price", of_Z 5)])
  /\ result <> Returned CreativeAgent.fallback_quote
  /\ CreativeAgent.well_formed_quote (JObj [("price", of_Z 5)]) = false.
Proof.
  intros jobBrief result.
  assert (Hresult : result = Returned (JObj [("price", of_Z 5)]))
    by (vm_compute; reflexivity).
  split; [vm_compute; reflexivity|]. split; [reflexivity|].
  split; [exact Hresult|]. split; [|reflexivity].
  rewrite Hresult. discriminate.
Qed.

Lemma generateImage_propagates_failure_witness :
  fst (CreativeAgent.generateImage (Examples.answering "ok") "a red fox" initial)
  = Returned "https://images.example/robyn.png"
  /\ fst (CreativeAgent.generateImage Examples.unreachable "a red fox" initial)
     = Thrown (ProviderError "Connection error.").
Proof.
  split.
  - apply (proj1 (generateImage_propagates_failure
                    (Examples.answering "ok") initial "a red fox")
             Examples.sample_image {| url := "https://images.example/robyn.png" |} []);
      reflexivity.
  - apply (proj1 (proj2 (generateImage_propagates_failure
                           Examples.unreachable initial "a red fox"))).
    reflexivity.
Defined.

(** ** Histories when calls overlap *)

Section Overlapping.

Import SupportAgent Overlap.

(** A call that runs without interruption is its two halves in a row. *)
Lemma generateResponse_halves (openai : Client) (m : string) (u : option string)
    (st : State) :
  generateResponse openai m u st
  = match before_await m u st with
    | (Returned request, st') =>
        after_await m u (chat_completions_create openai request) st'
    | (Thrown e, st') => (Thrown e, st')
    end.
Proof.
unfold generateResponse, before_await, after_await, try_catch, mbind, M_bind, read.
destruct (truthy _); simpl;
  destruct (spread _ _) as [[past|e] st1]; simpl; try reflexivity;
  unfold await_chat, eval, chat_request; simpl;
  by destruct (chat_completions_create openai _).
Qed.

Lemma before_await_history (m : string) (u : option string) (st : State) (k : string) :
  history_of (snd (before_await m u st)) k = history_of st k.
Proof.
unfold before_await, mbind, M_bind, read, history_of, get_property.
destruct (conversationHistory st !! to_string u) as [h|] eqn:Hk; simpl.
- by rewrite Hk.
- destruct (bool_decide _); simpl.
  + rewrite Hk. reflexivity.
  + rewrite lookup_insert_eq; simpl. rewrite lookup_insert.
    destruct (decide (to_string u = k)) as [<-|]; [by rewrite Hk | done].
Qed.

Lemma after_await_history (m : string) (u : option string)
    (settled : outcome Completion) (st : State) (k : string) :
  history_of (snd (after_await m u settled st)) k = history_of st k
  \/ exists a, history_of (snd (after_await m u settled st)) k
               = after_exchange (history_of st k) m a.
Proof.
unfold after_await, try_catch, mbind, M_bind, eval.
destruct settled as [completion|e]; simpl; [|by left].
destruct (CreativeAgent.first_content completion) as [a|e]; simpl; [|by left].
unfold push, history_length, history_of; simpl.
destruct (decide (to_string u = k)) as [<-|Hne].
- destruct (conversationHistory st !! to_string u) as [h|] eqn:Hk.
  + right. exists a. rewrite !lookup_alter_eq, Hk. simpl.
    unfold after_exchange. rewrite <- app_assoc. simpl.
    destruct (20 <? length _)%nat; simpl;
      rewrite !lookup_alter_eq, Hk; simpl; by rewrite <- app_assoc.
  + left. rewrite !lookup_alter_eq, Hk. simpl.
    by rewrite !lookup_alter_eq, Hk.
- left. destruct (20 <? _)%nat; simpl; by rewrite !lookup_alter_ne.
Qed.

Lemma take_well_kept (t : Turn) (st : State) :
  (forall k, well_kept (history_of st k)) ->
  forall k, well_kept (history_of (take t st) k).
Proof.
intros Hinv k. destruct t as [m u | m u settled]; simpl.
- by rewrite before_await_history.
- destruct (after_await_history m u settled st k) as [-> | [a ->]]; [done|].
  by apply after_exchange_well_kept.
Qed.

(** X14.  However the halves of concurrent calls are ordered, and however
    each promise is settled, every history stays within 20 entries and in
    strict alternation from a user turn. *)
Lemma schedule_well_kept (turns : list Turn) (k : string) :
  well_kept (history_of (schedule turns initial) k).
Proof.
unfold schedule. revert k.
induction turns as [|t turns IH] using rev_ind; intros k.
- apply initial_well_kept.
- rewrite fold_left_app. simpl. by apply take_well_kept.
Qed.

End Overlapping.

(** * Further properties of the handlers *)

(** ** The Creative Handler's requests *)

Section CreativeRequests.

Import CreativeAgent.

Variables (openai : Client) (st : State).

(** X1.  Whatever the provider does, one call of [generateQuote] hands it
    exactly one chat request, a single user message whose text carries the
    brief's description unescaped between double quotes, and leaves every
    conversation history as it was.  The brief's [userId] plays no part. *)
Theorem generateQuote_one_request (jobBrief : JobBrief) :
  snd (generateQuote openai jobBrief st)
  = {| conversationHistory := conversationHistory st;
       issued := issued st ++ [ChatCall (quote_request (description jobBrief))] |}
  /\ (exists text,
        messages (quote_request (description jobBrief))
        = [{| role := user; content := text |}]
        /\ contains text (quoted (description jobBrief)))
  /\ (forall other : option string,
        generateQuote openai
          {| description := description jobBrief; userId := other |} st
        = generateQuote openai jobBrief st).
Proof.
split; [|split].
- destruct (generateQuote_returns openai jobBrief st) as [q Hq]. by rewrite Hq.
- exists (quote_prompt (description jobBrief)). split; [reflexivity|].
  unfold quote_prompt. by eexists _, _.
- intros other. by rewrite !generateQuote_run.
Qed.

(** X2.  One call of [generateImage] hands the provider exactly one image
    request: model dall-e-3, size 1024x1024, quality hd, the prompt as
    given.  It leaves the histories alone.  When the provider fulfils the
    request with an empty list of images, [generateImage] throws a
    [TypeError], which nothing catches. *)
Theorem generateImage_one_request (prompt : string) :
  snd (generateImage openai prompt st)
  = {| conversationHistory := conversationHistory st;
       issued := issued st
                 ++ [ImageCall {| image_model := "dall-e-3"; OpenAI.prompt := prompt;
                                  size := "1024x1024"; quality := "hd" |}] |}
  /\ (forall response : ImagesResponse,
        images_generate openai (image_request prompt) = Returned response ->
        images_data response = [] ->
        exists text, fst (generateImage openai prompt st) = Thrown (TypeError text)).
Proof.
unfold generateImage, mbind, M_bind, await_image. fold (image_request prompt).
split.
- destruct (images_generate openai (image_request prompt)) as [response|e];
    [|reflexivity].
  by destruct (images_data response).
- intros response -> Hempty. rewrite Hempty. by eexists.
Qed.

End CreativeRequests.

Lemma generateImage_one_request_witness :
  exists text,
    fst (CreativeAgent.generateImage Examples.empty_handed "a red fox" initial)
    = Thrown (TypeError text).
Proof.
apply (proj2 (generateImage_one_request Examples.empty_handed initial "a red fox")
         {| images_data := [] |}); reflexivity.
Defined.

(** ** The Support Handler's store *)

Section SupportStore.

Import SupportAgent Session.

(** The store after a call that got as far as the provider: only the
    entry of the call's own user id is written. *)
Lemma step_store (c : Call) (st : State) :
  conversationHistory (snd (step c st)) = conversationHistory st
  \/ exists h, conversationHistory (snd (step c st))
               = <[to_string (userId c) := h]> (conversationHistory st).
Proof.
unfold step.
destruct (inherited_or_not
            (get_property (conversationHistory st) (to_string (userId c))))
  as [Hinh|Hown].
- rewrite (generateResponse_inherited _ _ _ _ Hinh). by left.
- rewrite (generateResponse_called _ _ _ _ Hown). cbv zeta. right.
  destruct (chat_completions_create _ _) as [completion|e];
    [destruct (CreativeAgent.first_content completion)|]; by eexists.
Qed.

(** X3.  A call of [generateResponse] for one user id never reads into or
    writes another user's entry: under every other key the store holds
    after the call what it held before, however the call ends. *)
Theorem generateResponse_isolated (openai : Client) (userMessage : string)
    (userId : option string) (st : State) (k : string) :
  k <> to_string userId ->
  conversationHistory (snd (generateResponse openai userMessage userId st)) !! k
  = conversationHistory st !! k.
Proof.
intros Hne.
destruct (step_store {| provider := openai; userMessage := userMessage;
                        userId := userId |} st) as [Heq | [h Heq]];
  unfold step in Heq; simpl in Heq; rewrite Heq; [done|].
by rewrite lookup_insert_ne.
Qed.

Lemma step_keeps_entries (c : Call) (st : State) (k : string) :
  is_Some (conversationHistory st !! k) ->
  is_Some (conversationHistory (snd (step c st)) !! k).
Proof.
intros Hk. destruct (step_store c st) as [-> | [h ->]]; [done|].
rewrite lookup_insert. by destruct (decide (_ = k)).
Qed.

(** X4.  The store only grows.  An entry, once created, is there after
    any further calls; and every call that reaches the provider leaves an
    entry for its user id, whether the provider then fails or not. *)
Theorem entries_are_never_removed (calls : list Call) (st : State) :
  (forall k : string,
     is_Some (conversationHistory st !! k) ->
     is_Some (conversationHistory (run calls st) !! k))
  /\ (forall (c : Call) (request : ChatRequest),
        issues c st request ->
        is_Some (conversationHistory (run (c :: calls) st) !! to_string (userId c))).
Proof.
assert (Hkeep : forall cs s k,
          is_Some (conversationHistory s !! k) ->
          is_Some (conversationHistory (run cs s) !! k)).
{ induction cs as [|c cs IH]; intros s k Hk; [done|].
  simpl. apply IH. by apply step_keeps_entries. }
split; [apply Hkeep|].
intros c request Hiss. simpl. apply Hkeep.
destruct (issues_inv _ _ _ Hiss) as [Hown _].
unfold step. rewrite (generateResponse_called _ _ _ _ Hown). cbv zeta.
destruct (chat_completions_create _ _) as [completion|e];
  [destruct (CreativeAgent.first_content completion)|];
  simpl; rewrite lookup_insert_eq; by eexists.
Qed.

(** X6.  A successful call returns the provider's reply, and its own
    exchange is what the history ends with afterwards: the trim takes
    from the front only, so the newest exchange is never the one removed,
    whatever was on record before. *)
Theorem latest_exchange_is_kept (c : Call) (st : State) (reply : string) :
  succeeds c st reply ->
  fst (step c st) = Returned reply
  /\ exists older : list ConversationTurn,
       history_of (snd (step c st)) (to_string (userId c))
       = older ++ Transcript.exchange (userMessage c) reply.
Proof.
intros Hsucc. rewrite (step_succeeds _ _ _ Hsucc). split; [done|].
simpl snd. rewrite history_of_leaving, decide_True by done.
unfold after_exchange, Transcript.exchange.
set (h := history_of st _).
destruct (20 <? length (h ++ _))%nat eqn:Hcap; [|by exists h].
apply Nat.ltb_lt in Hcap. rewrite length_app in Hcap. simpl in Hcap.
exists (drop 2 h). rewrite drop_app_le by lia. done.
Qed.

(** Two states that agree on every history and on whether the user id
    is shadowed by an inherited name are told apart by no call. *)
Lemma step_agree (c : Call) (st1 st2 : State) :
  (forall k, history_of st1 k = history_of st2 k) ->
  (get_property (conversationHistory st1) (to_string (userId c)) = Inherited
   <-> get_property (conversationHistory st2) (to_string (userId c)) = Inherited) ->
  fst (step c st1) = fst (step c st2)
  /\ forall k, history_of (snd (step c st1)) k = history_of (snd (step c st2)) k.
Proof.
intros Hsame Hinh. unfold step.
destruct (inherited_or_not
            (get_property (conversationHistory st2) (to_string (userId c))))
  as [H2|H2].
- pose proof (proj2 Hinh H2) as H1.
  rewrite (generateResponse_inherited _ _ _ _ H1),
          (generateResponse_inherited _ _ _ _ H2). by split.
- assert (H1 : get_property (conversationHistory st1) (to_string (userId c))
               <> Inherited) by (intros H; apply H2; by apply Hinh).
  rewrite (generateResponse_called _ _ _ _ H1),
          (generateResponse_called _ _ _ _ H2). cbv zeta.
  rewrite Hsame.
  destruct (chat_completions_create _ _) as [completion|e];
    [destruct (CreativeAgent.first_content completion)|];
    (split; [done|]); intros k; simpl snd; rewrite !history_of_leaving;
    by destruct (decide (_ = k)).
Qed.

(** X7.  A call whose remote request failed leaves no trace for later
    calls: any call made after it returns what it would have returned,
    and leaves every history as it would have left it, had the failed
    call never been made. *)
Theorem failed_call_leaves_no_trace (failed next : Call) (st : State) :
  remote_fails failed st ->
  fst (step next (snd (step failed st))) = fst (step next st)
  /\ forall k : string,
       history_of (snd (step next (snd (step failed st)))) k
       = history_of (snd (step next st)) k.
Proof.
intros Hfail. pose proof Hfail as (request & e & Hiss & _).
destruct (issues_inv _ _ _ Hiss) as [Hown _].
rewrite (step_remote_fails _ _ Hfail). simpl snd.
apply step_agree.
- intros k. rewrite history_of_leaving. by destruct (decide (_ = k)) as [<-|].
- unfold leaving, get_property; simpl.
  destruct (decide (to_string (userId failed) = to_string (userId next)))
    as [Heq|Hne].
  + rewrite Heq, lookup_insert_eq. rewrite Heq in Hown.
    unfold get_property in Hown. split; [discriminate | by intros H].
  + by rewrite lookup_insert_ne.
Qed.

(** X8.  On a server that has handled any calls since it started, every
    request [generateResponse] issues names the model gpt-4, caps the
    reply at 250 tokens, ends with the user's new message, and carries at
    most 22 messages: the persona, at most 20 turns of history, and the
    new message. *)
Theorem support_request_is_bounded (calls : list Call) (c : Call)
    (request : ChatRequest) :
  issues c (run calls initial) request ->
  length (messages request) <= 22
  /\ model request = "gpt-4"
  /\ max_tokens request = Some 250
  /\ last (messages request) = Some {| role := user; content := userMessage c |}.
Proof.
intros Hiss. destruct (issues_inv _ _ _ Hiss) as [_ ->].
destruct (run_well_kept calls initial initial_well_kept (to_string (userId c)))
  as (Hlen & _ & _).
unfold chat_request; simpl. repeat split.
- rewrite length_app. simpl. lia.
- rewrite app_comm_cons. by rewrite last_snoc.
Qed.

End SupportStore.

Lemma generateResponse_isolated_witness :
  let st := Session.run [{| Session.provider := Examples.answering "Happy to help.";
                           Session.userMessage := "help";
                           Session.userId := Some "u1" |}] initial in
  "u1" <> to_string (Some "u2")
  /\ conversationHistory
       (snd (SupportAgent.generateResponse (Examples.answering "Of course.")
               "a question" (Some "u2") st)) !! "u1"
     = Some [{| role := user; content := "help" |};
             {| role := assistant; content := "Happy to help." |}].
Proof.
intros st.
assert (Hne : "u1" <> to_string (Some "u2")) by discriminate.
split; [exact Hne|].
rewrite (generateResponse_isolated (Examples.answering "Of course.")
           "a question" (Some "u2") st "u1" Hne).
vm_compute. reflexivity.
Defined.

Lemma entries_are_never_removed_witness :
  let failing := {| Session.provider := Examples.unreachable;
                    Session.userMessage := "help";
                    Session.userId := Some "u1" |} in
  let other := {| Session.provider := Examples.answering "Of course.";
                  Session.userMessage := "a question";
                  Session.userId := Some "u2" |} in
  Session.issues failing initial (SupportAgent.chat_request "help" [])
  /\ is_Some (conversationHistory (Session.run [failing; other; other] initial) !! "u1").
Proof.
intros failing other.
assert (Hiss : Session.issues failing initial (SupportAgent.chat_request "help" []))
  by (vm_compute; reflexivity).
split; [exact Hiss|].
exact (proj2 (entries_are_never_removed [other; other] initial) failing _ Hiss).
Defined.

Lemma latest_exchange_is_kept_witness :
  let c := {| Session.provider := Examples.answering "Happy to help.";
              Session.userMessage := "I have a question";
              Session.userId := Some "u1" |} in
  let st := Session.run (repeat c 10) initial in
  Session.succeeds c st "Happy to help."
  /\ length (SupportAgent.history_of st "u1") = 20
  /\ fst (Session.step c st) = Returned "Happy to help."
  /\ exists older : list ConversationTurn,
       SupportAgent.history_of (snd (Session.step c st)) "u1"
       = older ++ Transcript.exchange "I have a question" "Happy to help.".
Proof.
intros c st.
assert (Hsucc : Session.succeeds c st "Happy to help.")
  by (apply answering_succeeds; vm_compute; discriminate).
split; [exact Hsucc|]. split; [vm_compute; reflexivity|].
exact (latest_exchange_is_kept c st "Happy to help." Hsucc).
Defined.

Lemma failed_call_leaves_no_trace_witness :
  let failed := {| Session.provider := Examples.unreachable;
                   Session.userMessage := "help";
                   Session.userId := Some "u1" |} in
  let next := {| Session.provider := Examples.answering "Happy to help.";
                 Session.userMessage := "help";
                 Session.userId := Some "u1" |} in
  Session.remote_fails failed initial
  /\ fst (Session.step next (snd (Session.step failed initial)))
     = Returned "Happy to help."
  /\ SupportAgent.history_of
       (snd (Session.step next (snd (Session.step failed initial)))) "u1"
     = Transcript.exchange "help" "Happy to help.".
Proof.
intros failed next.
assert (Hfail : Session.remote_fails failed initial).
{ exists (SupportAgent.chat_request "help" []), (ProviderError "Connection error.").
  split; [vm_compute|]; reflexivity. }
split; [exact Hfail|].
destruct (failed_call_leaves_no_trace failed next initial Hfail) as [Hret Hhist].
split; [rewrite Hret | rewrite Hhist]; vm_compute; reflexivity.
Defined.

Lemma support_request_is_bounded_witness :
  let c := {| Session.provider := Examples.answering "Happy to help.";
              Session.userMessage := "I have a question";
              Session.userId := Some "u1" |} in
  let st := Session.run (repeat c 12) initial in
  let request := SupportAgent.chat_request "I have a question"
                   (SupportAgent.history_of st "u1") in
  Session.issues c st request
  /\ length (SupportAgent.history_of st "u1") = 20
  /\ length (messages request) <= 22
  /\ model request = "gpt-4"
  /\ max_tokens request = Some 250
  /\ last (messages request)
     = Some {| role := user; content := "I have a question" |}.
Proof.
intros c st request.
assert (Hiss : Session.issues c st request) by (vm_compute; reflexivity).
split; [exact Hiss|]. split; [vm_compute; reflexivity|].
exact (support_request_is_bounded (repeat c 12) c request Hiss).
Defined.

(** ** The history as a window on the transcript *)

Section Window.

Import SupportAgent Session Transcript.

Lemma after_exchange_last_turns (h : list ConversationTurn) (m a : string) :
  length h <= 20 -> Nat.even (length h) = true ->
  after_exchange h m a = last_turns 20 (h ++ exchange m a).
Proof.
intros Hlen Heven. unfold after_exchange, last_turns, exchange.
set (h' := h ++ _).
assert (Hlen' : length h' = length h + 2)
  by (unfold h'; rewrite length_app; reflexivity).
apply Nat.even_spec in Heven as [n Hn].
destruct (20 <? length h')%nat eqn:Hcap.
- apply Nat.ltb_lt in Hcap. by replace (length h' - 20) with 2 by lia.
- apply Nat.ltb_ge in Hcap. replace (length h' - 20) with 0 by lia.
  by rewrite drop_0.
Qed.

(** Cutting first and appending then cuts to the same window as
    appending to the whole. *)
Lemma last_turns_app (n : nat) (l e : list ConversationTurn) :
  last_turns n (last_turns n l ++ e) = last_turns n (l ++ e).
Proof.
unfold last_turns.
destruct (decide (length l <= n)) as [Hle|Hgt].
- replace (length l - n) with 0 by lia. by rewrite drop_0.
- rewrite !length_app, length_drop.
  replace (length l - (length l - n) + length e - n) with (length e) by lia.
  replace (length l + length e - n) with ((length l - n) + length e) by lia.
  rewrite <- drop_drop, (drop_app_le l) by lia. done.
Qed.

Lemma all_succeed_window (calls : list (Call * string)) (st : State) (key : string) :
  (forall k, well_kept (history_of st k)) ->
  Forall (fun cr => to_string (userId (fst cr)) = key) calls ->
  all_succeed calls st ->
  history_of (run (map fst calls) st) key
  = last_turns 20 (history_of st key ++ turns_of calls).
Proof.
revert st. induction calls as [|[c reply] calls IH]; intros st Hinv Hkey Hall.
- simpl. rewrite app_nil_r. destruct (Hinv key) as (Hlen & _ & _).
  unfold last_turns. replace (length _ - 20) with 0 by lia. by rewrite drop_0.
- destruct Hall as [Hsucc Hall]. apply Forall_cons in Hkey as [Hk Hkey].
  simpl in Hk. simpl map. simpl run.
  rewrite (IH _ (step_well_kept c st Hinv) Hkey Hall).
  rewrite (step_succeeds _ _ _ Hsucc). simpl snd.
  rewrite Hk, history_of_leaving, decide_True by done.
  destruct (Hinv key) as (Hlen & Heven & _).
  rewrite (after_exchange_last_turns _ _ _ Hlen Heven).
  rewrite last_turns_app. unfold turns_of. simpl. by rewrite <- app_assoc.
Qed.

(** X5.  The history is a sliding window.  After any earlier calls, let a
    user's calls all be successful exchanges, with no call for that user
    in between failing: the history then is exactly the last 20 turns of
    everything on record before followed by those exchanges in order, so
    it holds the ten latest exchanges once there are ten, and its length
    is the smaller of 20 and the number of turns so far. *)
Theorem history_is_last_twenty_turns (earlier : list Call)
    (calls : list (Call * string)) (key : string) :
  let st := run earlier initial in
  Forall (fun cr => to_string (userId (fst cr)) = key) calls ->
  all_succeed calls st ->
  history_of (run (map fst calls) st) key
  = last_turns 20 (history_of st key ++ turns_of calls)
  /\ length (history_of (run (map fst calls) st) key)
     = Nat.min 20 (length (history_of st key) + 2 * length calls).
Proof.
intros st Hkey Hall.
rewrite (all_succeed_window calls st key
           (run_well_kept earlier initial initial_well_kept) Hkey Hall).
split; [done|].
unfold last_turns. rewrite length_drop, length_app.
assert (Hturns : length (turns_of calls) = 2 * length calls).
{ unfold turns_of. clear. induction calls as [|cr calls IH]; [done|].
  simpl. rewrite IH. lia. }
rewrite Hturns. lia.
Qed.

(** Under a user id that names nothing inherited, a provider that always
    answers makes every call a successful exchange. *)
Lemma answering_all_succeed (text m : string) (u : option string) (n : nat)
    (st : State) :
  to_string u ∉ Object_prototype ->
  all_succeed
    (repeat ({| provider := Examples.answering text; userMessage := m; userId := u |},
             text) n) st.
Proof.
intros Hfree. revert st. induction n as [|n IH]; intros st; [exact I|].
split; [|apply IH].
apply answering_succeeds. unfold get_property.
destruct (conversationHistory st !! to_string u); [discriminate|].
by rewrite bool_decide_eq_false_2.
Qed.

End Window.

Lemma history_is_last_twenty_turns_witness :
  let c := {| Session.provider := Examples.answering "Happy to help.";
              Session.userMessage := "I have a question";
              Session.userId := Some "u1" |} in
  let calls := repeat (c, "Happy to help.") 13 in
  Forall (fun cr => to_string (Session.userId (fst cr)) = "u1") calls
  /\ Transcript.all_succeed calls initial
  /\ length (SupportAgent.history_of (Session.run (map fst calls) initial) "u1")
     = Nat.min 20 (length (SupportAgent.history_of initial "u1") + 2 * length calls).
Proof.
intros c calls.
assert (Hkey : Forall (fun cr => to_string (Session.userId (fst cr)) = "u1") calls)
  by (apply Forall_forall; intros cr Hin; apply list_elem_of_In, repeat_spec in Hin;
      by subst).
assert (Hall : Transcript.all_succeed calls initial).
{ apply answering_all_succeed. intros Hin. apply list_elem_of_In in Hin.
  vm_compute in Hin. intuition discriminate. }
split; [exact Hkey|]. split; [exact Hall|].
exact (proj2 (history_is_last_twenty_turns [] calls "u1" Hkey Hall)).
Defined.

(** ** The route, case by case *)

Section Serving.

Import Orchestrator Api Server.

(** Everything the route can do with a request. *)
Lemma process_message_cases (openai : Client) (req_body : Body) (st : State) :
  ((message req_body = None \/ message req_body = Some "")
   /\ process_message openai req_body st
      = (Returned {| status := 400; body := error_json "Message is required" |}, st))
  \/ (exists text jobQuote,
        message req_body = Some text /\ text <> ""
        /\ mentions creative_keywords text
        /\ process_message openai req_body st
           = (Returned {| status := 200;
                          body := envelope_json
                                    {| type := "job_quote"; data := jobQuote |} |},
              {| conversationHistory := conversationHistory st;
                 issued := issued st
                           ++ [ChatCall (CreativeAgent.quote_request text)] |}))
  \/ (exists text,
        message req_body = Some text /\ text <> ""
        /\ ~ mentions creative_keywords text /\ mentions support_keywords text
        /\ process_message openai req_body st
           = match Session.step (support_call openai text (userId req_body)) st with
             | (Returned chatResponse, st') =>
                 (Returned {| status := 200;
                              body := envelope_json
                                        {| type := "support_response";
                                           data := JStr chatResponse |} |}, st')
             | (Thrown _, st') =>
                 (Returned {| status := 500;
                              body := error_json "Internal server error" |}, st')
             end)
  \/ (exists text,
        message req_body = Some text /\ text <> ""
        /\ ~ mentions creative_keywords text /\ ~ mentions support_keywords text
        /\ process_message openai req_body st
           = (Returned {| status := 200;
                          body := envelope_json
                                    {| type := "error"; data := JStr rephrase |} |},
              st)).
Proof.
destruct (message req_body) as [text|] eqn:Hm.
2: { left. split; [by left|]. unfold process_message, try_catch. by rewrite Hm. }
destruct (String.eqb_spec text "") as [->|Hne].
{ left. split; [by right|]. unfold process_message, try_catch. by rewrite Hm. }
right. rewrite (process_message_run _ _ _ _ Hm Hne).
destruct (mentions_or_not creative_keywords text) as [Hc|Hc].
- left. rewrite (processRequest_creative _ _ _ _ Hc). unfold mbind, M_bind.
  destruct (generateQuote_returns openai
              {| CreativeAgent.description := text;
                 CreativeAgent.userId := userId req_body |} st) as [q Hq].
  rewrite Hq. by exists text, q.
- right. destruct (mentions_or_not support_keywords text) as [Hs|Hs].
  + left. exists text. repeat (split; [done|]).
    rewrite (processRequest_support _ _ _ _ Hc Hs). unfold mbind, M_bind.
    unfold Session.step, support_call; simpl.
    by destruct (SupportAgent.generateResponse openai text (userId req_body) st)
      as [[r|e] st'].
  + right. exists text. repeat (split; [done|]).
    by rewrite (processRequest_unrecognised _ _ _ _ Hc Hs).
Qed.

(** A call of the Support Handler hands the provider at most one request. *)
Lemma step_issued (c : Session.Call) (st : State) :
  issued (snd (Session.step c st)) = issued st
  \/ exists request, issued (snd (Session.step c st)) = issued st ++ [ChatCall request].
Proof.
unfold Session.step.
destruct (inherited_or_not
            (SupportAgent.get_property (conversationHistory st)
               (to_string (Session.userId c)))) as [Hinh|Hown].
- rewrite (generateResponse_inherited _ _ _ _ Hinh). by left.
- rewrite (generateResponse_called _ _ _ _ Hown). cbv zeta. right.
  destruct (chat_completions_create _ _) as [completion|e];
    [destruct (CreativeAgent.first_content completion)|]; by eexists.
Qed.

(** X9.  The route makes a single attempt: handling one HTTP request
    hands the provider no request or exactly one chat request, appended
    to those before it, whether the provider fails or not.  No path from
    the route reaches the image endpoint. *)
Theorem route_issues_at_most_one_request (openai : Client) (req_body : Body)
    (st : State) :
  issued (snd (process_message openai req_body st)) = issued st
  \/ exists request : ChatRequest,
       issued (snd (process_message openai req_body st))
       = issued st ++ [ChatCall request].
Proof.
destruct (process_message_cases openai req_body st)
  as [[_ ->] | [(text & q & _ & _ & _ & ->) | [(text & _ & _ & _ & _ & ->)
     | (text & _ & _ & _ & _ & ->)]]]; simpl.
- by left.
- right. by eexists.
- destruct (step_issued (support_call openai text (userId req_body)) st)
    as [Heq | [request Heq]];
    destruct (Session.step _ st) as [[r|e] st']; simpl in *; rewrite Heq;
    [by left | by left | right; by eexists | right; by eexists].
- by left.
Qed.

(** X10.  The route never lets an exception out: every request gets an
    answer, with status 400, 200 or 500.  An answer with status 200 is
    always a [{type, data}] object whose type is one of job_quote,
    support_response and error, and the other two statuses carry an
    [{error}] object. *)
Theorem route_always_answers (openai : Client) (req_body : Body) (st : State) :
  exists (response : Response) (st' : State),
    process_message openai req_body st = (Returned response, st')
    /\ ((status response = 400
         /\ body response = error_json "Message is required")
        \/ (status response = 500
            /\ body response = error_json "Internal server error")
        \/ (status response = 200
            /\ exists (t : string) (d : json),
                 body response = JObj [("type", JStr t); ("data", d)]
                 /\ t ∈ ["job_quote"; "support_response"; "error"])).
Proof.
destruct (process_message_cases openai req_body st)
  as [[_ ->] | [(text & q & _ & _ & _ & ->) | [(text & _ & _ & _ & _ & ->)
     | (text & _ & _ & _ & _ & ->)]]].
- eexists _, _. split; [done|]. by left.
- eexists _, _. split; [done|]. right; right. split; [done|].
  eexists _, _. split; [done|]. set_solver.
- destruct (Session.step _ st) as [[r|e] st']; eexists _, _; (split; [done|]).
  + right; right. split; [done|]. eexists _, _. split; [done|]. set_solver.
  + right; left. by split.
- eexists _, _. split; [done|]. right; right. split; [done|].
  eexists _, _. split; [done|]. set_solver.
Qed.

(** Handling a request changes each history as one call of the Support
    Handler would, or not at all, and creates no entry under an inherited
    name. *)
Lemma handle_history (h : Hit) (st : State) (k : string) :
  SupportAgent.history_of (snd (handle h st)) k = SupportAgent.history_of st k
  \/ exists m a, SupportAgent.history_of (snd (handle h st)) k
                 = SupportAgent.after_exchange (SupportAgent.history_of st k) m a.
Proof.
unfold handle.
destruct (process_message_cases (client h) (request_body h) st)
  as [[_ ->] | [(text & q & _ & _ & _ & ->) | [(text & _ & _ & _ & _ & ->)
     | (text & _ & _ & _ & _ & ->)]]]; try (by left).
pose proof (step_history (support_call (client h) text (userId (request_body h)))
              st k) as Hstep.
by destruct (Session.step _ st) as [[r|e] st'].
Qed.

Lemma handle_shadow_free (h : Hit) (st : State) :
  SupportAgent.shadow_free st -> SupportAgent.shadow_free (snd (handle h st)).
Proof.
intros Hfree. unfold handle.
destruct (process_message_cases (client h) (request_body h) st)
  as [[_ ->] | [(text & q & _ & _ & _ & ->) | [(text & _ & _ & _ & _ & ->)
     | (text & _ & _ & _ & _ & ->)]]]; try done.
pose proof (step_shadow_free (support_call (client h) text (userId (request_body h)))
              st Hfree) as Hstep.
by destruct (Session.step _ st) as [[r|e] st'].
Qed.

Lemma serve_shadow_free (hits : list Hit) :
  SupportAgent.shadow_free (serve hits initial).
Proof.
assert (H : forall st, SupportAgent.shadow_free st ->
                       SupportAgent.shadow_free (serve hits st)).
{ induction hits as [|h hits IH]; intros st Hst; [done|].
  simpl. apply IH. by apply handle_shadow_free. }
apply H. intros k _. apply lookup_empty.
Qed.

(** X18.  Whatever HTTP requests the server has handled since it started,
    and however the provider behaved, every stored history has at most 20
    entries, an even number of them, alternating user and assistant turns
    from a user turn. *)
Theorem served_histories_are_well_kept (hits : list Hit) (k : string) :
  SupportAgent.well_kept (SupportAgent.history_of (serve hits initial) k).
Proof.
assert (H : forall st,
          (forall k, SupportAgent.well_kept (SupportAgent.history_of st k)) ->
          forall k, SupportAgent.well_kept (SupportAgent.history_of (serve hits st) k)).
{ induction hits as [|h hits IH]; intros st Hst; [done|].
  simpl. apply IH. intros k'.
  destruct (handle_history h st k') as [-> | (m & a & ->)]; [done|].
  by apply after_exchange_well_kept. }
apply H. apply initial_well_kept.
Qed.

(** X17.  A user id that names a member of [Object.prototype] can never
    get a conversation: on a server that has handled any requests
    whatever, [generateResponse] for such an id throws a [TypeError]
    without handing the provider anything and without changing the
    state. *)
Theorem inherited_userId_always_throws (hits : list Hit) (openai : Client)
    (userMessage : string) (userId : option string) :
  to_string userId ∈ SupportAgent.Object_prototype ->
  SupportAgent.generateResponse openai userMessage userId (serve hits initial)
  = (Thrown (TypeError "history is not iterable"), serve hits initial).
Proof.
intros Hin. apply generateResponse_inherited.
by apply shadow_free_inherited; [apply serve_shadow_free|].
Qed.

(** X11.  For requests of the data model, whose [message] and [userId]
    are each a text or absent, and on a server that has handled any such
    requests whatever: the route answers 500 in exactly one situation.
    The message is not empty, holds a support keyword and no creative
    keyword, and the user id, read as a property name, is a member name
    of [Object.prototype].  A body whose [message] is some other JSON
    value lies outside [Body] and outside this statement; the route hands
    a truthy one to the router all the same, where calling [includes] on
    a number, a boolean or an object throws, so such a body is answered
    500 as well. *)
Theorem text_request_answered_500_exactly_when (hits : list Hit) (openai : Client)
    (req_body : Body) :
  status_of (process_message openai req_body (serve hits initial)) = Some 500
  <-> exists text : string,
        message req_body = Some text /\ text <> ""
        /\ mentions support_keywords text
        /\ ~ mentions creative_keywords text
        /\ to_string (userId req_body) ∈ SupportAgent.Object_prototype.
Proof.
set (st := serve hits initial). unfold status_of. split.
- destruct (process_message_cases openai req_body st)
    as [[_ ->] | [(text & q & _ & _ & _ & ->) | [(text & Hm & Hne & Hc & Hs & ->)
       | (text & _ & _ & _ & _ & ->)]]]; try discriminate.
  intros H500. exists text. repeat (split; [done|]).
  unfold Session.step, support_call in H500; simpl in H500.
  destruct (inherited_or_not
              (SupportAgent.get_property (conversationHistory st)
                 (to_string (userId req_body)))) as [Hinh|Hown].
  + unfold SupportAgent.get_property in Hinh.
    destruct (conversationHistory st !! _); [discriminate|].
    destruct (bool_decide _) eqn:Hd; [|discriminate].
    by apply bool_decide_eq_true_1 in Hd.
  + rewrite (generateResponse_called _ _ _ _ Hown) in H500. cbv zeta in H500.
    destruct (chat_completions_create _ _) as [completion|e];
      [destruct (CreativeAgent.first_content completion)|]; discriminate.
- intros (text & Hm & Hne & Hs & Hc & Hin).
  rewrite (process_message_run _ _ _ _ Hm Hne).
  rewrite (support_route_throws_on_inherited _ _ _ _ Hc Hs); [done|].
  by apply shadow_free_inherited; [apply serve_shadow_free|].
Qed.

(** X12.  A request without a user id and a request from the user id
    "undefined" are one and the same to the server: same answer, same
    state afterwards, and so one shared conversation. *)
Theorem absent_userId_is_undefined (openai : Client) (message : option string)
    (st : State) :
  process_message openai {| Api.message := message; userId := None |} st
  = process_message openai {| Api.message := message; userId := Some "undefined" |} st.
Proof.
destruct message as [text|]; [|reflexivity].
destruct (String.eqb_spec text "") as [->|Hne]; [reflexivity|].
rewrite !(process_message_run _ _ _ text) by done. simpl userId.
destruct (mentions_or_not creative_keywords text) as [Hc|Hc].
- rewrite !(processRequest_creative _ _ _ _ Hc). unfold mbind, M_bind.
  by rewrite !generateQuote_run.
- destruct (mentions_or_not support_keywords text) as [Hs|Hs].
  + by rewrite !(processRequest_support _ _ _ _ Hc Hs).
  + by rewrite !(processRequest_unrecognised _ _ _ _ Hc Hs).
Qed.

(** X13.  Only a message that the router sends to the Support Handler can
    touch a conversation: for a message with a creative keyword, also
    when a support keyword stands beside it, and for a message with no
    support keyword, [processRequest] leaves the whole store as it was. *)
Theorem only_support_messages_touch_the_store (openai : Client) (userInput : string)
    (userId : option string) (st : State) :
  mentions creative_keywords userInput \/ ~ mentions support_keywords userInput ->
  conversationHistory (snd (processRequest openai userInput userId st))
  = conversationHistory st.
Proof.
intros Hcase.
destruct (mentions_or_not creative_keywords userInput) as [Hc|Hc].
- rewrite (processRequest_creative _ _ _ _ Hc). unfold mbind, M_bind.
  destruct (generateQuote_returns openai
              {| CreativeAgent.description := userInput;
                 CreativeAgent.userId := userId |} st) as [q Hq].
  by rewrite Hq.
- destruct Hcase as [Hc'|Hs]; [done|].
  by rewrite (processRequest_unrecognised _ _ _ _ Hc Hs).
Qed.

End Serving.

Lemma text_request_answered_500_exactly_when_witness :
  let hits := [{| Server.client := Examples.answering "Happy to help.";
                  Server.request_body :=
                    {| Api.message := Some "help"; Api.userId := Some "u1" |} |}] in
  Server.status_of
    (Api.process_message (Examples.answering "Happy to help.")
       {| Api.message := Some "I have a question"; Api.userId := Some "valueOf" |}
       (Server.serve hits initial))
  = Some 500.
Proof.
intros hits.
apply (proj2 (text_request_answered_500_exactly_when hits _ _)).
exists "I have a question". split; [reflexivity|]. split; [discriminate|].
split; [apply (proj2 (mentions_existsb _ _)); reflexivity|].
split; [intros H%mentions_existsb; discriminate H|].
apply list_elem_of_In. vm_compute. tauto.
Defined.

Lemma only_support_messages_touch_the_store_witness :
  let st := Session.run [{| Session.provider := Examples.answering "Happy to help.";
                           Session.userMessage := "help";
                           Session.userId := Some "u1" |}] initial in
  Orchestrator.mentions Orchestrator.support_keywords "I need help with a logo"
  /\ conversationHistory
       (snd (Orchestrator.processRequest (Examples.answering Examples.full_quote)
               "I need help with a logo" (Some "u1") st))
     = conversationHistory st.
Proof.
intros st.
split; [apply (proj2 (mentions_existsb _ _)); reflexivity|].
apply only_support_messages_touch_the_store. left.
apply (proj2 (mentions_existsb _ _)); reflexivity.
Defined.

Lemma inherited_userId_always_throws_witness :
  to_string (Some "__proto__") ∈ SupportAgent.Object_prototype
  /\ SupportAgent.generateResponse (Examples.answering "Happy to help.")
       "help" (Some "__proto__") initial
     = (Thrown (TypeError "history is not iterable"), initial).
Proof.
assert (Hin : to_string (Some "__proto__") ∈ SupportAgent.Object_prototype)
  by (apply list_elem_of_In; vm_compute; tauto).
split; [exact Hin|].
exact (inherited_userId_always_throws [] _ "help" (Some "__proto__") Hin).
Defined.

(** ** Two calls that overlap *)

Section Race.

Import SupportAgent Overlap.

Variables (userId : option string) (st : State).

Let key : string := to_string userId.

Lemma before_await_run (m : string) :
  get_property (conversationHistory st) key <> Inherited ->
  before_await m userId st
  = (Returned (chat_request m (history_of st key)),
     leaving key st (history_of st key) (chat_request m (history_of st key))).
Proof.
intros Hown.
unfold before_await, hand_over, leaving, mbind, M_bind, read, history_of,
  get_property in *. fold key in Hown |- *.
destruct (conversationHistory st !! key) as [h|] eqn:Hk; simpl.
- rewrite Hk; simpl. by rewrite insert_id.
- destruct (bool_decide _); [done|]. simpl. by rewrite lookup_insert_eq.
Qed.

Lemma after_await_run (m a : string) (completion : Completion) (s : State)
    (h : list ConversationTurn) :
  conversationHistory s !! key = Some h ->
  CreativeAgent.first_content completion = Returned a ->
  after_await m userId (Returned completion) s
  = (Returned a,
     {| conversationHistory := <[key := after_exchange h m a]> (conversationHistory s);
        issued := issued s |}).
Proof.
intros Hk Hfirst.
unfold after_await, try_catch, mbind, M_bind, eval. fold key. simpl. rewrite Hfirst.
unfold push, history_length; simpl.
rewrite !lookup_alter_eq, Hk; simpl.
unfold after_exchange. rewrite <- app_assoc; simpl.
rewrite !(alter_alt_Some _ _ _ _ Hk), !alter_insert_eq, <- app_assoc. simpl.
by destruct (20 <? length _)%nat; simpl; rewrite ?alter_insert_eq.
Qed.

(** X16.  Two calls for one user that overlap: the second enters before
    the first has resumed.  Both are sent the same past, so the second
    reply is composed without sight of the first exchange; and both
    exchanges are then recorded, in the order the calls resume.  Run one
    after the other, the same two calls leave the same history, but the
    second request does carry the first exchange. *)
Theorem overlapping_calls_share_a_snapshot (m1 m2 a1 a2 : string)
    (completion1 completion2 : Completion) :
  get_property (conversationHistory st) key <> Inherited ->
  CreativeAgent.first_content completion1 = Returned a1 ->
  CreativeAgent.first_content completion2 = Returned a2 ->
  let past := history_of st key in
  let entered1 := snd (before_await m1 userId st) in
  let resumed1 := snd (after_await m1 userId (Returned completion1) entered1) in
  fst (before_await m1 userId st) = Returned (chat_request m1 past)
  /\ fst (before_await m2 userId entered1) = Returned (chat_request m2 past)
  /\ history_of
       (schedule [Enter m1 userId; Enter m2 userId;
                  Resume m1 userId (Returned completion1);
                  Resume m2 userId (Returned completion2)] st) key
     = after_exchange (after_exchange past m1 a1) m2 a2
  /\ fst (before_await m2 userId resumed1)
     = Returned (chat_request m2 (after_exchange past m1 a1))
  /\ history_of
       (schedule [Enter m1 userId; Resume m1 userId (Returned completion1);
                  Enter m2 userId; Resume m2 userId (Returned completion2)] st) key
     = after_exchange (after_exchange past m1 a1) m2 a2.
Proof.
intros Hown H1 H2 past entered1 resumed1.
assert (Hentered1 : entered1 = leaving key st past (chat_request m1 past))
  by (unfold entered1; by rewrite (before_await_run m1 Hown)).
assert (Hk1 : conversationHistory entered1 !! key = Some past)
  by (rewrite Hentered1; apply lookup_insert_eq).
assert (Hown1 : get_property (conversationHistory entered1) key <> Inherited)
  by (unfold get_property; by rewrite Hk1).
assert (Hpast1 : history_of entered1 key = past)
  by (unfold history_of; by rewrite Hk1).
assert (Hresumed1 : conversationHistory resumed1 !! key
                    = Some (after_exchange past m1 a1)).
{ unfold resumed1. rewrite (after_await_run m1 a1 completion1 _ _ Hk1 H1).
  apply lookup_insert_eq. }
assert (Hownr : get_property (conversationHistory resumed1) key <> Inherited)
  by (unfold get_property; by rewrite Hresumed1).
assert (Hpastr : history_of resumed1 key = after_exchange past m1 a1)
  by (unfold history_of; by rewrite Hresumed1).
split; [by rewrite (before_await_run m1 Hown)|].
split.
{ unfold before_await, hand_over, mbind, M_bind, read, get_property in *.
  fold key. rewrite Hk1. simpl. by rewrite Hk1. }
split.
{ unfold schedule; simpl. fold entered1.
  set (entered2 := snd (before_await m2 userId entered1)).
  assert (Hk2 : conversationHistory entered2 !! key = Some past).
  { unfold entered2, before_await, hand_over, mbind, M_bind, read, get_property.
    fold key. rewrite Hk1. simpl. by rewrite Hk1. }
  rewrite (after_await_run m1 a1 completion1 _ _ Hk2 H1).
  erewrite (after_await_run m2 a2 completion2); [|apply lookup_insert_eq|exact H2].
  unfold history_of; simpl. by rewrite lookup_insert_eq. }
split.
{ unfold before_await, hand_over, mbind, M_bind, read, get_property in *.
  fold key. rewrite Hresumed1. simpl. by rewrite Hresumed1. }
unfold schedule; simpl. fold entered1. fold resumed1.
set (entered2 := snd (before_await m2 userId resumed1)).
assert (Hk2 : conversationHistory entered2 !! key = Some (after_exchange past m1 a1)).
{ unfold entered2, before_await, hand_over, mbind, M_bind, read, get_property.
  fold key. rewrite Hresumed1. simpl. by rewrite Hresumed1. }
rewrite (after_await_run m2 a2 completion2 _ _ Hk2 H2).
unfold history_of; simpl. by rewrite lookup_insert_eq.
Qed.

End Race.

Lemma overlapping_calls_share_a_snapshot_witness :
  let past := SupportAgent.history_of initial "u1" in
  fst (Overlap.before_await "what does a logo cost?" (Some "u1")
         (snd (Overlap.before_await "help" (Some "u1") initial)))
  = Returned (SupportAgent.chat_request "what does a logo cost?" [])
  /\ SupportAgent.history_of
       (Overlap.schedule
          [Overlap.Enter "help" (Some "u1");
           Overlap.Enter "what does a logo cost?" (Some "u1");
           Overlap.Resume "help" (Some "u1")
             (Returned (Examples.completion_of "Happy to help."));
           Overlap.Resume "what does a logo cost?" (Some "u1")
             (Returned (Examples.completion_of "From 1000 ZAR."))] initial) "u1"
     = Transcript.exchange "help" "Happy to help."
       ++ Transcript.exchange "what does a logo cost?" "From 1000 ZAR.".
Proof.
intros past.
destruct (overlapping_calls_share_a_snapshot (Some "u1") initial
            "help" "what does a logo cost?" "Happy to help." "From 1000 ZAR."
            (Examples.completion_of "Happy to help.")
            (Examples.completion_of "From 1000 ZAR.")
            ltac:(vm_compute; discriminate) eq_refl eq_refl)
  as (_ & Hsecond & Hboth & _).
split; [exact Hsecond | exact Hboth].
Defined.
